(** * flopflip: the adapter lifecycle controller and the adapter contract

    A shallow embedding of
    [packages/react/modules/components/configure-adapter/configure-adapter.tsx]
    (the [ConfigureAdapter] function component) and of the in-memory adapter
    exercised by the adapter test-suite.

    The component is written with React hooks.  The embedding keeps the
    component's own vocabulary:

    - [React.useState] for [appliedAdapterArgs] is a committed value (the one
      every closure of the last render has captured) plus the value handed to
      the setter and not rendered yet ([scheduled]);
    - [React.useRef] cells ([pendingAdapterArgs], [adapterState]) are plain
      fields, mutated in place;
    - every [React.useEffect] is a state transformer, run after a render in
      declaration order when its dependency array changed;
    - the adapter and the callbacks handed in through props are outside the
      component: what the component sends them is appended to a call log,
      and the promises the adapter returned and has not settled yet are kept
      in [inflight] together with the [.then] continuation attached to them.

    An event (a render caused by the parent, a reconfiguration request coming
    through the context, the settlement of a promise) is handled as React
    does: the handler runs, then React re-renders for as long as the state
    setter was called with a new value, up to its limit on nested updates.
    A render and the effects it triggers are one step.  A render caused by
    the parent hands the component a new [props] object, so the effect whose
    dependency array is [[props]] runs after it; a re-render caused by the
    state setter keeps the [props] object, so that effect does not run
    after it, whatever the note inside the effect says (it "will also be
    invoked from setState to appliedAdapterArgs"). *)

From Stdlib Require Import Ascii String.
From stdpp Require Import base decidable option list gmap strings fin_maps.

Set Default Proof Using "Type".

(** ** Flags *)

(** The value of a flag as the adapters hand it over: a boolean, a variation
    (a string), or one of JavaScript's two empty values. *)
Inductive FlagValue :=
| FlagBool (b : bool)
| FlagVariation (s : string)
| FlagNull
| FlagUndefined.

#[global] Instance FlagValue_eq_dec : EqDecision FlagValue.
Proof. solve_decision. Defined.

Abbreviation Flags := (gmap string FlagValue).

Module ConfigureAdapter.

(** [AdapterStates] *)
Inductive AdapterState := UNCONFIGURED | CONFIGURING | CONFIGURED.

#[global] Instance AdapterState_eq_dec : EqDecision AdapterState.
Proof. solve_decision. Defined.

(** [AdapterReconfigurationOptions] *)
Record AdapterReconfigurationOptions := { shouldOverwrite : bool }.

(** The two continuations the component attaches to an adapter promise:
    the [.then] of a [configure] call (mount effect and props effect carry
    the same body) and the [.then] of a [reconfigure] call. *)
Inductive Continuation := ThenConfigure | ThenReconfigure.

#[global] Instance Continuation_eq_dec : EqDecision Continuation.
Proof. solve_decision. Defined.

Section Controller.

(** [AdapterArgs] is opaque to the component.  Its equality stands for
    [Object.is], the comparison React applies to state values and to
    dependency arrays. *)
Context {AdapterArgs : Type} `{!EqDecision AdapterArgs}.

(** What a render produces ([React.ReactNode]). *)
Context {Node : Type}.

(** [AdapterReconfiguration]: [{ adapterArgs, options }].  The field
    [adapterArgs] is called [nextAdapterArgs] here, the name the component
    binds it to, because [Props] has a field [adapterArgs] as well. *)
Record AdapterReconfiguration := {
  nextAdapterArgs : AdapterArgs;
  options : AdapterReconfigurationOptions;
}.

(** [mergeAdapterArgs] is imported from [./helpers], whose source is not
    available: the component is verified for every merge function. *)
Variable mergeAdapterArgs : AdapterArgs → AdapterReconfiguration → AdapterArgs.

(** [ConfigureAdapterChildren]: nothing ([null], the default prop, or
    [undefined]), a function of [{ isAdapterReady }], or opaque content: one
    element, an array, or a single child that is not an element (text, a
    number, a boolean), of which only the JavaScript truthiness matters
    here. *)
Inductive Children :=
| ChildrenNull
| ChildrenFunction (f : bool → Node)
| ChildrenElement (n : Node)
| ChildrenArray (nodes : list Node)
| ChildrenOther (truthy : bool).

(** [Props], after [defaultProps] have been filled in.  The adapter, the
    two callbacks and [adapterStatus] are the outside world; [defaultFlags]
    is [None] when the prop is [null]. *)
Record Props := {
  shouldDeferAdapterConfiguration : bool;
  adapterArgs : AdapterArgs;
  defaultFlags : option Flags;
  render : option (unit → Node);
  children : Children;
}.

(** [ConfigureAdapter.defaultProps], over the one required data prop. *)
Definition defaultProps (args : AdapterArgs) : Props :=
  {| shouldDeferAdapterConfiguration := false;
     adapterArgs := args;
     defaultFlags := Some ∅;
     render := None;
     children := ChildrenNull |}.

(** What leaves the component: the two adapter calls, and the flags-change
    callback of the application. *)
Inductive Call :=
| AdapterConfigure (args : AdapterArgs)
| AdapterReconfigure (args : AdapterArgs)
| OnFlagsStateChange (flags : Flags).

(** One mounted [ConfigureAdapter]. *)
Record Instance := {
  props : Props;
  appliedAdapterArgs : AdapterArgs;
  scheduled : option AdapterArgs;
  pendingAdapterArgs : option AdapterArgs;
  adapterState : AdapterState;
  inflight : list Continuation;
  calls : list Call;
}.

Definition withProps (p : Props) (i : Instance) : Instance :=
  {| props := p; appliedAdapterArgs := appliedAdapterArgs i;
     scheduled := scheduled i; pendingAdapterArgs := pendingAdapterArgs i;
     adapterState := adapterState i; inflight := inflight i;
     calls := calls i |}.

Definition withApplied (a : AdapterArgs) (i : Instance) : Instance :=
  {| props := props i; appliedAdapterArgs := a;
     scheduled := None; pendingAdapterArgs := pendingAdapterArgs i;
     adapterState := adapterState i; inflight := inflight i;
     calls := calls i |}.

Definition withScheduled (s : option AdapterArgs) (i : Instance) : Instance :=
  {| props := props i; appliedAdapterArgs := appliedAdapterArgs i;
     scheduled := s; pendingAdapterArgs := pendingAdapterArgs i;
     adapterState := adapterState i; inflight := inflight i;
     calls := calls i |}.

Definition withPending (q : option AdapterArgs) (i : Instance) : Instance :=
  {| props := props i; appliedAdapterArgs := appliedAdapterArgs i;
     scheduled := scheduled i; pendingAdapterArgs := q;
     adapterState := adapterState i; inflight := inflight i;
     calls := calls i |}.

Definition withInflight (l : list Continuation) (i : Instance) : Instance :=
  {| props := props i; appliedAdapterArgs := appliedAdapterArgs i;
     scheduled := scheduled i; pendingAdapterArgs := pendingAdapterArgs i;
     adapterState := adapterState i; inflight := l;
     calls := calls i |}.

Definition emit (c : Call) (i : Instance) : Instance :=
  {| props := props i; appliedAdapterArgs := appliedAdapterArgs i;
     scheduled := scheduled i; pendingAdapterArgs := pendingAdapterArgs i;
     adapterState := adapterState i; inflight := inflight i;
     calls := calls i ++ [c] |}.

(** *** The callbacks of the component *)

Definition setAdapterState (nextAdapterState : AdapterState) (i : Instance)
  : Instance :=
  {| props := props i; appliedAdapterArgs := appliedAdapterArgs i;
     scheduled := scheduled i; pendingAdapterArgs := pendingAdapterArgs i;
     adapterState := nextAdapterState; inflight := inflight i;
     calls := calls i |}.

(** The setter of [React.useState]: the value is rendered later. *)
Definition setAppliedAdapterArgs (next : AdapterArgs) (i : Instance) : Instance :=
  withScheduled (Some next) i.

Definition applyAdapterArgs (next : AdapterArgs) (i : Instance) : Instance :=
  setAppliedAdapterArgs next i.

Definition getIsAdapterConfigured (i : Instance) : bool :=
  bool_decide (adapterState i = CONFIGURED)
  && negb (bool_decide (adapterState i = CONFIGURING)).

Definition getDoesAdapterNeedInitialConfiguration (i : Instance) : bool :=
  negb (bool_decide (adapterState i = CONFIGURED))
  && negb (bool_decide (adapterState i = CONFIGURING)).

(** [pendingAdapterArgs.current ?? appliedAdapterArgs] *)
Definition getAdapterArgsForConfiguration (i : Instance) : AdapterArgs :=
  default (appliedAdapterArgs i) (pendingAdapterArgs i).

Definition setPendingAdapterArgs (nextReconfiguration : AdapterReconfiguration)
    (i : Instance) : Instance :=
  withPending
    (Some (mergeAdapterArgs
             (default (appliedAdapterArgs i) (pendingAdapterArgs i))
             nextReconfiguration))
    i.

Definition reconfigureOrQueue (next : AdapterArgs)
    (o : AdapterReconfigurationOptions) (i : Instance) : Instance :=
  if getIsAdapterConfigured i
  then applyAdapterArgs
         (mergeAdapterArgs (appliedAdapterArgs i)
            {| nextAdapterArgs := next; options := o |})
         i
  else setPendingAdapterArgs {| nextAdapterArgs := next; options := o |} i.

(** [Object.keys(defaultFlags).length > 0] guards the publication. *)
Definition handleDefaultFlags (flags : Flags) (i : Instance) : Instance :=
  if bool_decide (0 < size flags) then emit (OnFlagsStateChange flags) i else i.

(** [adapter.configure(args, handlers).then(k)] and its sibling: the call
    is logged and the promise is outstanding, carrying [k]. *)
Definition adapterConfigure (args : AdapterArgs) (i : Instance) : Instance :=
  withInflight (inflight i ++ [ThenConfigure]) (emit (AdapterConfigure args) i).

Definition adapterReconfigure (args : AdapterArgs) (i : Instance) : Instance :=
  withInflight (inflight i ++ [ThenReconfigure]) (emit (AdapterReconfigure args) i).

(** *** The effects, in declaration order *)

(** [useEffect(() => { pendingAdapterArgs.current = null }, [appliedAdapterArgs])] *)
Definition clearPendingEffect (i : Instance) : Instance :=
  withPending None i.

(** The effect with the empty dependency array. *)
Definition mountEffect (i : Instance) : Instance :=
  let i := match defaultFlags (props i) with
           | Some flags => handleDefaultFlags flags i
           | None => i
           end in
  if negb (shouldDeferAdapterConfiguration (props i))
  then let i := setAdapterState CONFIGURING i in
       adapterConfigure (getAdapterArgsForConfiguration i) i
  else i.

(** The effect on [[adapterArgs, reconfigureOrQueue]]. *)
Definition adapterArgsEffect (i : Instance) : Instance :=
  reconfigureOrQueue (adapterArgs (props i))
    {| shouldOverwrite := bool_decide (adapterState i = CONFIGURED) |} i.

(** The effect on [[props]]. *)
Definition propsEffect (i : Instance) : Instance :=
  let i :=
    if negb (shouldDeferAdapterConfiguration (props i))
       && getDoesAdapterNeedInitialConfiguration i
    then let i := setAdapterState CONFIGURING i in
         adapterConfigure (getAdapterArgsForConfiguration i) i
    else i in
  if getIsAdapterConfigured i
  then let i := setAdapterState CONFIGURING i in
       adapterReconfigure (getAdapterArgsForConfiguration i) i
  else i.

(** *** React *)

(** The effects of one update, each run when its dependency array changed.
    [reconfigureOrQueue] is memoised on [appliedAdapterArgs] (its other
    dependencies never change), so the effect on
    [[adapterArgs, reconfigureOrQueue]] runs when either the prop or the
    applied arguments changed.  The effect on [[props]] runs when the
    component was handed a new [props] object. *)
Definition commit (appliedChanged adapterArgsChanged propsChanged : bool)
    (i : Instance) : Instance :=
  let i := if appliedChanged then clearPendingEffect i else i in
  let i := if appliedChanged || adapterArgsChanged
           then adapterArgsEffect i else i in
  if propsChanged then propsEffect i else i.

(** The update that renders a new value of [appliedAdapterArgs]: the
    [props] object is the one of the render before. *)
Definition rerender (next : AdapterArgs) (i : Instance) : Instance :=
  commit true false false (withApplied next i).

(** Re-rendering after the state setter was called.  A value that is the
    current state is dropped without a render.  In a [CONFIGURED] component
    every such render runs the effect on
    [[adapterArgs, reconfigureOrQueue]] again, which calls the setter
    again: the renders go on until a merge hands back the value just
    rendered (the "setState-loop" of the note above that effect), and
    [fuel] bounds them as React's limit on nested updates does. *)
Fixpoint flush (fuel : nat) (i : Instance) : Instance :=
  match fuel with
  | 0 => i
  | S fuel' =>
      match scheduled i with
      | None => i
      | Some next =>
          if decide (next = appliedAdapterArgs i)
          then withScheduled None i
          else flush fuel' (rerender next i)
      end
  end.

(** React's limit on nested updates.  A value the setter was called with
    when the limit is reached stays [scheduled]. *)
Definition NESTED_UPDATE_LIMIT : nat := 50.

(** The first render and its effects: every effect runs. *)
Definition mountHandler (p : Props) : Instance :=
  let i := {| props := p; appliedAdapterArgs := adapterArgs p;
              scheduled := None; pendingAdapterArgs := None;
              adapterState := UNCONFIGURED; inflight := [];
              calls := [] |} in
  propsEffect (adapterArgsEffect (mountEffect (clearPendingEffect i))).

Definition mount (p : Props) : Instance :=
  flush NESTED_UPDATE_LIMIT (mountHandler p).

(** What can happen to a mounted component: its parent renders it again
    (with a new [props] object, as [React.createElement] makes one per
    render), a reconfiguration is requested through the context, or the
    [n]-th outstanding promise of the adapter settles. *)
Inductive Event :=
| Render (p : Props)
| RequestReconfiguration (next : AdapterArgs) (o : AdapterReconfigurationOptions)
| Resolve (n : nat)
| Reject (n : nat).

(** The [.then] continuations. *)
Definition continue (k : Continuation) (i : Instance) : Instance :=
  match k with
  | ThenConfigure =>
      let i := setAdapterState CONFIGURED i in
      match pendingAdapterArgs i with
      | Some pending => applyAdapterArgs pending i
      | None => i
      end
  | ThenReconfigure => setAdapterState CONFIGURED i
  end.

Definition handler (e : Event) (i : Instance) : Instance :=
  match e with
  | Render p =>
      commit false (bool_decide (adapterArgs p ≠ adapterArgs (props i))) true
        (withProps p i)
  | RequestReconfiguration next o => reconfigureOrQueue next o i
  | Resolve n =>
      match inflight i !! n with
      | Some k => continue k (withInflight (delete n (inflight i)) i)
      | None => i
      end
  | Reject n =>
      match inflight i !! n with
      | Some _ => withInflight (delete n (inflight i)) i
      | None => i
      end
  end.

Definition step (e : Event) (i : Instance) : Instance :=
  flush NESTED_UPDATE_LIMIT (handler e i).

Definition run (events : list Event) (i : Instance) : Instance :=
  foldl (λ i e, step e i) i events.

(** *** The render output *)

Inductive Rendered :=
| RenderedNull
| RenderedNode (n : Node)
| RenderedThrow.

(** Modelled from the spec: [isFunctionChildren] of [./helpers], whose
    source is not available; the rendering contract of the spec tells
    children-as-function from opaque children. *)
Definition isFunctionChildren (c : Children) : bool :=
  match c with ChildrenFunction _ => true | _ => false end.

(** [React.Children.count]: the number of nodes in opaque content. *)
Definition childrenCount (c : Children) : nat :=
  match c with
  | ChildrenNull | ChildrenFunction _ => 0
  | ChildrenElement _ | ChildrenOther _ => 1
  | ChildrenArray nodes => length nodes
  end.

(** Modelled from the spec: [isEmptyChildren] of [./helpers], whose source
    is not available: children that are not a function and count no
    node. *)
Definition isEmptyChildren (c : Children) : bool :=
  negb (isFunctionChildren c) && bool_decide (childrenCount c = 0).

(** [React.Children.only]: the child when it is one element, an exception
    otherwise (an array, text, a number, a boolean). *)
Definition childrenOnly (c : Children) : Rendered :=
  match c with
  | ChildrenElement n => RenderedNode n
  | _ => RenderedThrow
  end.

(** JavaScript truthiness of the [children] prop: functions, elements and
    arrays (the empty one too) are truthy. *)
Definition truthyChildren (c : Children) : bool :=
  match c with
  | ChildrenNull => false
  | ChildrenOther truthy => truthy
  | _ => true
  end.

(** [props.children({ isAdapterReady })] *)
Definition callChildren (c : Children) (isAdapterReady : bool) : Rendered :=
  match c with
  | ChildrenFunction f => RenderedNode (f isAdapterReady)
  | _ => RenderedThrow
  end.

(** The last three statements of the body of the provider. *)
Definition renderChildren (isAdapterReady : bool) (p : Props) : Rendered :=
  if isFunctionChildren (children p)
  then callChildren (children p) isAdapterReady
  else if truthyChildren (children p) && negb (isEmptyChildren (children p))
  then childrenOnly (children p)
  else RenderedNull.

(** The body of the provider, given [props.adapter.getIsReady()]. *)
Definition renderOutput (isAdapterReady : bool) (p : Props) : Rendered :=
  if isAdapterReady
  then match render p with
       | Some r => RenderedNode (r ())
       | None => renderChildren isAdapterReady p
       end
  else renderChildren isAdapterReady p.

(** *** Predicates of the lifecycle *)

(** The adapter calls are serialised: no promise is outstanding, or exactly
    one is and the component is [CONFIGURING]. *)
Definition serialised (i : Instance) : Prop :=
  inflight i = [] ∨ (adapterState i = CONFIGURING ∧ ∃ k, inflight i = [k]).

(** The state a mounted component can be in. *)
Definition reachable (i : Instance) : Prop :=
  ∃ p events, i = run events (mount p).

(** The two ways a reconfiguration request reaches the component: changed
    props, and the function published through the context. *)
Definition isReconfigurationRequest (e : Event) : bool :=
  match e with
  | Render _ | RequestReconfiguration _ _ => true
  | Resolve _ | Reject _ => false
  end.

(** The event that comes from the parent. *)
Definition isRender (e : Event) : bool :=
  match e with Render _ => true | _ => false end.

(** The request the effect on [[adapterArgs, reconfigureOrQueue]] makes in
    a [CONFIGURED] component. *)
Definition overwriteWith (args : AdapterArgs) : AdapterReconfiguration :=
  {| nextAdapterArgs := args; options := {| shouldOverwrite := true |} |}.

(** *** Reading the call log *)

Definition isAdapterCall (c : Call) : bool :=
  match c with
  | AdapterConfigure _ | AdapterReconfigure _ => true
  | OnFlagsStateChange _ => false
  end.

Definition isReconfigureCall (c : Call) : bool :=
  match c with AdapterReconfigure _ => true | _ => false end.

(** The calls that went to the adapter, and those that went to the
    flags-change callback. *)
Definition adapterCalls (i : Instance) : list Call :=
  filter (λ c, isAdapterCall c = true) (calls i).

Definition flagsCalls (i : Instance) : list Call :=
  filter (λ c, isAdapterCall c = false) (calls i).

(** What [handleDefaultFlags] publishes for the props of the mount. *)
Definition publishedAtMount (p : Props) : list Call :=
  match defaultFlags p with
  | Some flags =>
      if bool_decide (0 < size flags) then [OnFlagsStateChange flags] else []
  | None => []
  end.

(** An event that leaves the configuration deferred: any event but a render
    whose props no longer ask for the deferral. *)
Definition keepsDeferred (e : Event) : bool :=
  match e with
  | Render p => shouldDeferAdapterConfiguration p
  | _ => true
  end.

(** Requests made through the context, one after the other. *)
Definition requestEvents (requests : list AdapterReconfiguration) : list Event :=
  map (λ r, RequestReconfiguration (nextAdapterArgs r) (options r)) requests.

(** What a step may add to the call log of a component that was in state
    [before]: nothing, the one [configure] call of a component that was
    [UNCONFIGURED], or one [reconfigure] call of a component that was not. *)
Definition appendedBy (before : AdapterState) (added : list Call) : Prop :=
  added = []
  ∨ (before = UNCONFIGURED ∧ ∃ a, added = [AdapterConfigure a])
  ∨ (before ≠ UNCONFIGURED ∧ ∃ a, added = [AdapterReconfigure a]).

End Controller.

End ConfigureAdapter.

(** ** The in-memory adapter *)

Module MemoryAdapter.

(** *** Flag normalisation *)

Definition isDigit (c : ascii) : bool :=
  let n := nat_of_ascii c in (48 <=? n)%nat && (n <=? 57)%nat.

Definition isUpper (c : ascii) : bool :=
  let n := nat_of_ascii c in (65 <=? n)%nat && (n <=? 90)%nat.

Definition isLower (c : ascii) : bool :=
  let n := nat_of_ascii c in (97 <=? n)%nat && (n <=? 122)%nat.

Definition isAlphaNumeric (c : ascii) : bool :=
  isDigit c || isUpper c || isLower c.

Definition toUpper (c : ascii) : ascii :=
  if isLower c then ascii_of_nat (nat_of_ascii c - 32) else c.

Definition toLower (c : ascii) : ascii :=
  if isUpper c then ascii_of_nat (nat_of_ascii c + 32) else c.

(** A string of letters and digits only. *)
Fixpoint allAlphaNumeric (s : string) : bool :=
  match s with
  | EmptyString => true
  | String c rest => isAlphaNumeric c && allAlphaNumeric rest
  end.

(** Modelled from the spec: camel case drops every separator and
    capitalises the character that follows one. *)
Fixpoint joinWords (capitalise : bool) (s : string) : string :=
  match s with
  | EmptyString => EmptyString
  | String c rest =>
      if isAlphaNumeric c
      then String (if capitalise then toUpper c else c) (joinWords false rest)
      else joinWords true rest
  end.

(** Modelled from the spec: camel case starts in lower case. *)
Definition lowerFirst (s : string) : string :=
  match s with
  | EmptyString => EmptyString
  | String c rest => String (toLower c) rest
  end.

(** Modelled from the spec: the flag normalizer lives in the adapter package,
    of which only the test-suite is available.  The spec asks for camel-case
    keys: the words of a name are what its separators (anything that is not
    a letter or a digit) delimit; they are joined, every word but the first
    capitalised. *)
Definition camelCase (s : string) : string :=
  lowerFirst (joinWords false s).

(** Modelled from the spec: the values are coerced toward a defined falsy
    representation: the two empty values become [false], booleans and
    variations are kept. *)
Definition normalizeFlagValue (v : FlagValue) : FlagValue :=
  match v with
  | FlagNull | FlagUndefined => FlagBool false
  | _ => v
  end.

(** Modelled from the spec: the flag normalizer, a pure map from raw
    name/value pairs to their canonical form. *)
Definition normalizeFlags (raw : Flags) : Flags :=
  map_fold (λ name v acc, <[camelCase name := normalizeFlagValue v]> acc) ∅ raw.

(** A flag set in canonical form. *)
Definition isCanonical (flags : Flags) : Prop :=
  ∀ name v, flags !! name = Some v →
    camelCase name = name ∧ normalizeFlagValue v = v.

(** *** The adapter *)

(** What the adapter sends out: the two change notifications, and the
    calls to the assertion mechanism ([invariant(condition, message)]). *)
Inductive Signal :=
| FlagsStateChange (flags : Flags)
| StatusStateChange (isReady isConfigured : bool)
| Invariant (condition : bool).

Definition isFlagsStateChange (s : Signal) : bool :=
  match s with FlagsStateChange _ => true | _ => false end.

Record AdapterState := {
  isReady : bool;
  isConfigured : bool;
  flags : Flags;
  user : option string;
}.

Definition intialAdapterState : AdapterState :=
  {| isReady := false; isConfigured := false; flags := ∅; user := None |}.

(** Modelled from the spec: the reference in-memory implementation of the
    adapter contract ([./adapter], which the test-suite imports, is not
    available).  Every
    operation is total and returns the next state with the signals it
    sent. *)
Definition configure (u : string) (s : AdapterState)
  : AdapterState * list Signal :=
  ({| isReady := true; isConfigured := true; flags := ∅; user := Some u |},
   [FlagsStateChange ∅; StatusStateChange true true]).

(** Modelled from the spec: reconfiguring updates the user and reports
    empty flags. *)
Definition reconfigure (u : string) (s : AdapterState)
  : AdapterState * list Signal :=
  ({| isReady := isReady s; isConfigured := isConfigured s; flags := ∅;
      user := Some u |},
   [FlagsStateChange ∅]).

(** Modelled from the spec: mutating flags asserts that the adapter is
    configured; the flags are touched only when it is. *)
Definition updateFlags (raw : Flags) (s : AdapterState)
  : AdapterState * list Signal :=
  if isConfigured s
  then let next := normalizeFlags raw ∪ flags s in
       ({| isReady := isReady s; isConfigured := isConfigured s;
           flags := next; user := user s |},
        [Invariant true; FlagsStateChange next])
  else (s, [Invariant false]).

(** Modelled from the spec: resetting forgets everything, silently. *)
Definition reset (s : AdapterState) : AdapterState * list Signal :=
  (intialAdapterState, []).

(** Modelled from the spec: the adapter status is published through the
    status callback whenever it changes. *)
Definition setIsReady (ready : bool) (s : AdapterState)
  : AdapterState * list Signal :=
  ({| isReady := ready; isConfigured := isConfigured s; flags := flags s;
      user := user s |},
   [StatusStateChange ready (isConfigured s)]).

(** Modelled from the spec: [getIsReady() -> boolean]. *)
Definition getIsReady (s : AdapterState) : bool := isReady s.

(** Modelled from the spec: [getFlag(name) -> value|undefined]; [undefined]
    is [None]. *)
Definition getFlag (name : string) (s : AdapterState) : option FlagValue :=
  flags s !! name.

(** Modelled from the spec: the user the adapter was last configured
    with, as the test-suite reads it back. *)
Definition getUser (s : AdapterState) : option string := user s.

(** A sequence of flag updates, threading the state and collecting the
    signals. *)
Definition updateAll (updates : list Flags) (s : AdapterState)
  : AdapterState * list Signal :=
  foldl (λ acc raw, let '(s', out) := updateFlags raw acc.1 in (s', acc.2 ++ out))
        (s, []) updates.

(** The state of the adapter once [configure] has resolved and a sequence
    of flag updates went through. *)
Definition configuredThenUpdated (u : string) (updates : list Flags)
    (s : AdapterState) : AdapterState :=
  (updateAll updates (configure u s).1).1.

(** The raw flags of the test-suite. *)
Definition updatedFlags : Flags :=
  {[ "fooFlag"%string := FlagBool true; "barFlag"%string := FlagBool false ]}.

Definition nonNormalizedUpdatedFlags : Flags :=
  {[ "flag-a-1"%string := FlagBool false; "flag_b"%string := FlagNull ]}.

End MemoryAdapter.

(** ** A concrete application, for the worked examples *)

Module Fixture.

Import ConfigureAdapter.

(** Adapter arguments: an object with fields.  [generation] tells an object
    from the one it was merged from, as [Object.is] does for the fresh
    object a merge returns. *)
Record Args := { generation : nat; fields : gmap string string }.

#[global] Instance Args_eq_dec : EqDecision Args.
Proof. solve_decision. Defined.

(** Modelled from the spec: [mergeAdapterArgs] of [./helpers], whose source
    is not available.  With [shouldOverwrite] the arguments of the request
    replace the base: the object of the request is handed back as it is, so
    that overwriting twice with the same props gives the same object.
    Without it the fields of the request are laid over the base (the
    no-loss property of the spec), in an object of its own. *)
Definition mergeAdapterArgs (previous : Args)
    (r : @AdapterReconfiguration Args) : Args :=
  if shouldOverwrite (options r) then nextAdapterArgs r
  else {| generation :=
            S (Nat.max (generation previous) (generation (nextAdapterArgs r)));
          fields := fields (nextAdapterArgs r) ∪ fields previous |}.

Definition user (id : string) : Args :=
  {| generation := 0; fields := {[ "user"%string := id ]} |}.

Definition locale (l : string) : Args :=
  {| generation := 0; fields := {[ "locale"%string := l ]} |}.

Definition plan (l : string) : Args :=
  {| generation := 0; fields := {[ "plan"%string := l ]} |}.

Definition additive : AdapterReconfigurationOptions :=
  {| shouldOverwrite := false |}.

(** Mounted with [adapterArgs = { user: 'foo' }] and nothing else. *)
Definition props0 : @Props Args string := defaultProps (user "foo").

Definition mount0 : @Instance Args string := mount mergeAdapterArgs props0.

(** The [configure] promise has resolved. *)
Definition configured0 : @Instance Args string :=
  run mergeAdapterArgs [Resolve 0] mount0.


(** That reconfiguration has resolved too. *)
Definition settled : @Instance Args string :=
  run mergeAdapterArgs
    [Resolve 0; Render props0; RequestReconfiguration (locale "de") additive;
     Resolve 0]
    mount0.

(** [{ plan: 'pro' }] is requested next. *)
Definition replanned : @Instance Args string :=
  run mergeAdapterArgs
    [Resolve 0; Render props0; RequestReconfiguration (locale "de") additive;
     Resolve 0; RequestReconfiguration (plan "pro") additive]
    mount0.

(** Requests that arrive while a call is in flight: one through the
    context, one as changed props. *)
Definition whileConfiguring : list (@Event Args string) :=
  [RequestReconfiguration (locale "de") additive;
   Render (defaultProps (user "bar"))].

(** What may follow a rejection. *)
Definition afterRejection : list (@Event Args string) :=
  [Render props0; RequestReconfiguration (locale "de") additive;
   Resolve 0; Render (defaultProps (user "bar"))].

(** The arguments the adapter was called with. *)
Definition argsOf (c : @Call Args) : option Args :=
  match c with
  | AdapterConfigure a | AdapterReconfigure a => Some a
  | OnFlagsStateChange _ => None
  end.

(** Does an adapter call carry the field [name]? *)
Definition carries (name : string) (c : @Call Args) : bool :=
  match argsOf c with
  | Some a => bool_decide (is_Some (fields a !! name))
  | None => false
  end.

(** Props with one opaque child and no render callback. *)
Definition propsWithChild : @Props Args string :=
  {| shouldDeferAdapterConfiguration := false;
     adapterArgs := user "foo";
     defaultFlags := Some ∅;
     render := None;
     children := ChildrenElement "<App />"%string |}.


(** Props with default flags, configuration deferred. *)
Definition someFlags : Flags := {[ "fooFlag"%string := FlagBool true ]}.

Definition propsWithDefaultFlags : @Props Args string :=
  {| shouldDeferAdapterConfiguration := true;
     adapterArgs := user "foo";
     defaultFlags := Some someFlags;
     render := None;
     children := ChildrenNull |}.

(** What may happen while the configuration is deferred. *)
Definition whileDeferred : list (@Event Args string) :=
  [RequestReconfiguration (locale "de") additive;
   Render propsWithDefaultFlags; Resolve 0;
   RequestReconfiguration (plan "pro") additive].

(** Two requests, in the order they are made. *)
Definition twoRequests : list (@AdapterReconfiguration Args) :=
  [{| nextAdapterArgs := locale "de"; options := additive |};
   {| nextAdapterArgs := plan "pro"; options := additive |}].

(** Modelled from the spec: [mergeAdapterArgs] again, on bare fields, for
    a merge that hands back an object equal to one it was given. *)
Definition mergeFields (previous : gmap string string)
    (r : @AdapterReconfiguration (gmap string string))
  : gmap string string :=
  nextAdapterArgs r ∪ previous.

Definition fooFields : gmap string string := {[ "user"%string := "foo"%string ]}.

Definition propsFields : @Props (gmap string string) string :=
  defaultProps fooFields.

End Fixture.

(** * Properties of the lifecycle controller *)

Module ConfigureAdapterSpec.

Import ConfigureAdapter.

Section Lifecycle.

Context {AdapterArgs : Type} `{!EqDecision AdapterArgs} {Node : Type}.
Variable mergeAdapterArgs :
  AdapterArgs → @AdapterReconfiguration AdapterArgs → AdapterArgs.

Local Abbreviation Instance := (@Instance AdapterArgs Node).
Local Abbreviation Props := (@Props AdapterArgs Node).
Local Abbreviation Event := (@Event AdapterArgs Node).
Local Abbreviation step := (step mergeAdapterArgs).
Local Abbreviation run := (run mergeAdapterArgs).
Local Abbreviation mount := (mount mergeAdapterArgs).
Local Abbreviation handler := (handler mergeAdapterArgs).
Local Abbreviation flush := (flush mergeAdapterArgs).
Local Abbreviation rerender := (rerender mergeAdapterArgs).
Local Abbreviation commit := (commit mergeAdapterArgs).
Local Abbreviation adapterArgsEffect := (adapterArgsEffect mergeAdapterArgs).
Local Abbreviation reconfigureOrQueue := (reconfigureOrQueue mergeAdapterArgs).
Local Abbreviation mountHandler := (mountHandler mergeAdapterArgs).
Local Abbreviation reachable := (reachable mergeAdapterArgs).

(** The nested-update limit is a number to React only. *)
#[local] Opaque NESTED_UPDATE_LIMIT.

(** Case analysis on the lifecycle state of an instance. *)
Ltac unfold_component :=
  unfold ConfigureAdapter.rerender, ConfigureAdapter.commit,
    ConfigureAdapter.propsEffect, ConfigureAdapter.adapterArgsEffect,
    ConfigureAdapter.mountEffect, clearPendingEffect,
    ConfigureAdapter.reconfigureOrQueue,
    ConfigureAdapter.setPendingAdapterArgs, applyAdapterArgs,
    setAppliedAdapterArgs, adapterConfigure, adapterReconfigure,
    handleDefaultFlags, getAdapterArgsForConfiguration,
    getIsAdapterConfigured, getDoesAdapterNeedInitialConfiguration,
    setAdapterState, withProps, withApplied, withScheduled, withPending,
    withInflight, emit in *.

Ltac decide_states :=
  repeat (progress (
    repeat first
      [ rewrite bool_decide_true in * by done
      | rewrite bool_decide_false in * by done ];
    rewrite ?andb_false_r, ?andb_true_r in *;
    simpl in *)).

Ltac lifecycle i :=
  let st := fresh "st" in
  let p := fresh "p" in
  let Hdefer := fresh "Hdefer" in
  destruct i as [p ? ? ? st ? ?];
  destruct (shouldDeferAdapterConfiguration p) eqn:Hdefer;
  destruct st;
  unfold_component; simpl in *; rewrite ?Hdefer in *; decide_states.

(** ** The effects one by one *)

Lemma propsEffect_cases (i : Instance) :
  propsEffect i =
    match adapterState i with
    | UNCONFIGURED =>
        if shouldDeferAdapterConfiguration (props i) then i
        else adapterConfigure (default (appliedAdapterArgs i) (pendingAdapterArgs i))
               (setAdapterState CONFIGURING i)
    | CONFIGURING => i
    | CONFIGURED =>
        adapterReconfigure (default (appliedAdapterArgs i) (pendingAdapterArgs i))
          (setAdapterState CONFIGURING i)
    end.
Proof. by lifecycle i. Qed.

Lemma adapterArgsEffect_cases (i : Instance) :
  adapterArgsEffect i =
    match adapterState i with
    | CONFIGURED =>
        withScheduled
          (Some (mergeAdapterArgs (appliedAdapterArgs i)
                   {| nextAdapterArgs := adapterArgs (props i);
                      options := {| shouldOverwrite := true |} |})) i
    | _ =>
        withPending
          (Some (mergeAdapterArgs
                   (default (appliedAdapterArgs i) (pendingAdapterArgs i))
                   {| nextAdapterArgs := adapterArgs (props i);
                      options := {| shouldOverwrite := false |} |})) i
    end.
Proof. by lifecycle i. Qed.

Lemma reconfigureOrQueue_cases (next : AdapterArgs)
    (o : AdapterReconfigurationOptions) (i : Instance) :
  reconfigureOrQueue next o i =
    match adapterState i with
    | CONFIGURED =>
        withScheduled
          (Some (mergeAdapterArgs (appliedAdapterArgs i)
                   {| nextAdapterArgs := next; options := o |})) i
    | _ =>
        withPending
          (Some (mergeAdapterArgs
                   (default (appliedAdapterArgs i) (pendingAdapterArgs i))
                   {| nextAdapterArgs := next; options := o |})) i
    end.
Proof. by lifecycle i. Qed.

(** Case analysis through the three equations above. *)
Ltac by_cases i :=
  let st := fresh "st" in
  unfold ConfigureAdapter.rerender, ConfigureAdapter.commit;
  rewrite ?propsEffect_cases, ?adapterArgsEffect_cases,
    ?reconfigureOrQueue_cases;
  destruct i as [? ? ? ? st ? ?];
  destruct st; simpl in *;
  repeat match goal with
    | |- context [shouldDeferAdapterConfiguration ?p] =>
        destruct (shouldDeferAdapterConfiguration p) eqn:?; simpl in *
    end;
  unfold adapterConfigure, adapterReconfigure, setAdapterState,
    clearPendingEffect, withProps, withApplied, withScheduled, withPending,
    withInflight, emit in *;
  simpl in *.

Lemma adapterArgsEffect_frame (i : Instance) :
  adapterState (adapterArgsEffect i) = adapterState i
  ∧ inflight (adapterArgsEffect i) = inflight i
  ∧ calls (adapterArgsEffect i) = calls i
  ∧ props (adapterArgsEffect i) = props i
  ∧ appliedAdapterArgs (adapterArgsEffect i) = appliedAdapterArgs i.
Proof. by by_cases i. Qed.

Lemma reconfigureOrQueue_frame (next : AdapterArgs)
    (o : AdapterReconfigurationOptions) (i : Instance) :
  adapterState (reconfigureOrQueue next o i) = adapterState i
  ∧ inflight (reconfigureOrQueue next o i) = inflight i
  ∧ calls (reconfigureOrQueue next o i) = calls i
  ∧ props (reconfigureOrQueue next o i) = props i
  ∧ appliedAdapterArgs (reconfigureOrQueue next o i) = appliedAdapterArgs i.
Proof. by by_cases i. Qed.

Lemma propsEffect_configuring (i : Instance) :
  adapterState i = CONFIGURING → propsEffect i = i.
Proof. intros H. by by_cases i. Qed.

Lemma propsEffect_serialised (i : Instance) :
  serialised i → serialised (propsEffect i).
Proof.
  intros [Hnil | [Hst Hk]].
  - by_cases i; subst; unfold serialised; simpl; eauto.
  - rewrite propsEffect_configuring by done. right. eauto.
Qed.

Lemma commit_serialised (a b c : bool) (i : Instance) :
  serialised i → serialised (commit a b c i).
Proof.
  intros H. unfold ConfigureAdapter.commit.
  assert (serialised (if a then clearPendingEffect i else i)) as H1
    by (by destruct a).
  assert (serialised
            (if a || b
             then adapterArgsEffect (if a then clearPendingEffect i else i)
             else if a then clearPendingEffect i else i)) as H2.
  { destruct (a || b); [|done].
    destruct (adapterArgsEffect_frame (if a then clearPendingEffect i else i))
      as (Hs & Hi & _).
    unfold serialised. by rewrite Hs, Hi. }
  destruct c; [by apply propsEffect_serialised | done].
Qed.

(** ** Re-rendering *)

(** The render of new applied arguments, with the effects on
    [[appliedAdapterArgs]] and on [[adapterArgs, reconfigureOrQueue]]: the
    pending slot is emptied; a [CONFIGURED] component then overwrites the
    new value with the props' arguments, any other queues them. *)
Lemma rerender_cases (next : AdapterArgs) (i : Instance) :
  rerender next i =
    match adapterState i with
    | CONFIGURED =>
        {| props := props i; appliedAdapterArgs := next;
           scheduled :=
             Some (mergeAdapterArgs next
                     {| nextAdapterArgs := adapterArgs (props i);
                        options := {| shouldOverwrite := true |} |});
           pendingAdapterArgs := None; adapterState := CONFIGURED;
           inflight := inflight i; calls := calls i |}
    | st =>
        {| props := props i; appliedAdapterArgs := next; scheduled := None;
           pendingAdapterArgs :=
             Some (mergeAdapterArgs next
                     {| nextAdapterArgs := adapterArgs (props i);
                        options := {| shouldOverwrite := false |} |});
           adapterState := st; inflight := inflight i; calls := calls i |}
    end.
Proof. by by_cases i. Qed.

(** A re-render touches neither the adapter nor the lifecycle state. *)
Lemma rerender_frame (next : AdapterArgs) (i : Instance) :
  props (rerender next i) = props i
  ∧ adapterState (rerender next i) = adapterState i
  ∧ inflight (rerender next i) = inflight i
  ∧ calls (rerender next i) = calls i
  ∧ appliedAdapterArgs (rerender next i) = next.
Proof. rewrite rerender_cases. by destruct (adapterState i). Qed.

Lemma flush_quiet (n : nat) (i : Instance) :
  scheduled i = None → flush n i = i.
Proof. intros H. destruct n; simpl; [done | by rewrite H]. Qed.

Lemma flush_unfold (n : nat) (i : Instance) :
  flush (S n) i =
    match scheduled i with
    | None => i
    | Some next =>
        if decide (next = appliedAdapterArgs i)
        then withScheduled None i
        else flush n (rerender next i)
    end.
Proof. done. Qed.

Lemma flush_frame (n : nat) (i : Instance) :
  props (flush n i) = props i
  ∧ adapterState (flush n i) = adapterState i
  ∧ inflight (flush n i) = inflight i
  ∧ calls (flush n i) = calls i.
Proof.
  revert i. induction n as [|n IH]; intros i; [done|].
  rewrite flush_unfold. destruct (scheduled i) as [next|]; [|done].
  destruct (decide (next = appliedAdapterArgs i)); [done|].
  destruct (IH (rerender next i)) as (-> & -> & -> & ->).
  by destruct (rerender_frame next i) as (-> & -> & -> & -> & _).
Qed.

Lemma flush_same (n : nat) (i : Instance) :
  scheduled i = Some (appliedAdapterArgs i) →
  flush (S n) i = withScheduled None i.
Proof. intros H. rewrite flush_unfold, H. by rewrite decide_True. Qed.

Lemma flush_new (n : nat) (next : AdapterArgs) (i : Instance) :
  scheduled i = Some next → next ≠ appliedAdapterArgs i →
  flush (S n) i = flush n (rerender next i).
Proof. intros H Hne. rewrite flush_unfold, H. by rewrite decide_False. Qed.

Lemma flush_limit_same (i : Instance) :
  scheduled i = Some (appliedAdapterArgs i) →
  flush NESTED_UPDATE_LIMIT i = withScheduled None i.
Proof. change NESTED_UPDATE_LIMIT with (S 49). apply flush_same. Qed.

(** In a component that is not [CONFIGURED] one render is the end of it:
    the effect queues the props' arguments and sets no state. *)
Lemma flush_unconfigured (n : nat) (i : Instance) :
  adapterState i ≠ CONFIGURED → scheduled (flush (S n) i) = None.
Proof.
  intros Hst. rewrite flush_unfold.
  destruct (scheduled i) as [next|] eqn:Hs; [|done].
  destruct (decide (next = appliedAdapterArgs i)); [done|].
  assert (scheduled (rerender next i) = None) as Hq
    by (rewrite rerender_cases; by destruct (adapterState i)).
  by rewrite flush_quiet.
Qed.

Lemma flush_serialised (n : nat) (i : Instance) :
  serialised i → serialised (flush n i).
Proof.
  unfold serialised.
  by destruct (flush_frame n i) as (_ & -> & -> & _).
Qed.

(** What re-rendering leaves alone, for one step. *)
Lemma step_frame (e : Event) (i : Instance) :
  props (step e i) = props (handler e i)
  ∧ adapterState (step e i) = adapterState (handler e i)
  ∧ inflight (step e i) = inflight (handler e i)
  ∧ calls (step e i) = calls (handler e i).
Proof. unfold ConfigureAdapter.step. apply flush_frame. Qed.

Lemma step_settled (e : Event) (i : Instance) :
  adapterState (step e i) ≠ CONFIGURED → scheduled (step e i) = None.
Proof.
  destruct (step_frame e i) as (_ & Hst & _). rewrite Hst. intros H.
  unfold ConfigureAdapter.step. change NESTED_UPDATE_LIMIT with (S 49).
  by apply flush_unconfigured.
Qed.

(** ** What holds of every reachable instance *)

Lemma continue_frame (k : Continuation) (i : Instance) :
  inflight (continue k i) = inflight i
  ∧ calls (continue k i) = calls i
  ∧ pendingAdapterArgs (continue k i) = pendingAdapterArgs i
  ∧ appliedAdapterArgs (continue k i) = appliedAdapterArgs i
  ∧ adapterState (continue k i) = CONFIGURED.
Proof. by destruct k, i as [? ? ? [q|] ? ? ?]. Qed.

Lemma handler_serialised (e : Event) (i : Instance) :
  serialised i → serialised (handler e i).
Proof.
  intros H. destruct e as [p | next o | n | n].
  - by apply (commit_serialised false _ true (withProps p i)).
  - unfold serialised in *. simpl. by by_cases i.
  - simpl. destruct (inflight i !! n) as [k|] eqn:E; [|done].
    left. destruct H as [Hnil | (_ & k' & Hk)].
    + by rewrite Hnil in E.
    + rewrite Hk in *. destruct n as [|n]; [|done].
      by destruct (continue_frame k (withInflight (delete 0 [k']) i)) as [-> _].
  - simpl. destruct (inflight i !! n) as [k|] eqn:E; [|done].
    left. destruct H as [Hnil | (_ & k' & Hk)].
    + by rewrite Hnil in E.
    + rewrite Hk in *. by destruct n as [|n].
Qed.

Lemma step_serialised (e : Event) (i : Instance) :
  serialised i → serialised (step e i).
Proof. intros H. by apply flush_serialised, handler_serialised. Qed.

(** The state right after the first render and its effects. *)
Lemma mountHandler_eq (p : Props) :
  mountHandler p =
    {| props := p; appliedAdapterArgs := adapterArgs p; scheduled := None;
       pendingAdapterArgs :=
         Some (mergeAdapterArgs (adapterArgs p)
                 {| nextAdapterArgs := adapterArgs p;
                    options := {| shouldOverwrite := false |} |});
       adapterState :=
         if shouldDeferAdapterConfiguration p then UNCONFIGURED
         else CONFIGURING;
       inflight :=
         if shouldDeferAdapterConfiguration p then [] else [ThenConfigure];
       calls :=
         match defaultFlags p with
         | Some flags =>
             if bool_decide (0 < size flags)
             then [OnFlagsStateChange flags] else []
         | None => []
         end
         ++ (if shouldDeferAdapterConfiguration p then []
             else [AdapterConfigure (adapterArgs p)]) |}.
Proof.
  unfold ConfigureAdapter.mountHandler.
  rewrite propsEffect_cases, adapterArgsEffect_cases.
  unfold mountEffect, clearPendingEffect, handleDefaultFlags. simpl.
  destruct (shouldDeferAdapterConfiguration p) eqn:Hd;
    destruct (defaultFlags p) as [flags|];
    try destruct (bool_decide (0 < size flags));
    simpl; rewrite ?Hd; simpl; rewrite ?Hd; reflexivity.
Qed.

Lemma mountHandler_scheduled (p : Props) : scheduled (mountHandler p) = None.
Proof. by rewrite mountHandler_eq. Qed.

Lemma mount_unfold (p : Props) : mount p = mountHandler p.
Proof. apply flush_quiet, mountHandler_scheduled. Qed.

Lemma mount_serialised (p : Props) : serialised (mount p).
Proof.
  rewrite mount_unfold, mountHandler_eq. unfold serialised. simpl.
  destruct (shouldDeferAdapterConfiguration p); eauto.
Qed.

Lemma run_snoc (events : list Event) (e : Event) (i : Instance) :
  run (events ++ [e]) i = step e (run events i).
Proof. unfold ConfigureAdapter.run. by rewrite foldl_app. Qed.

Lemma run_app (events events' : list Event) (i : Instance) :
  run (events ++ events') i = run events' (run events i).
Proof. unfold ConfigureAdapter.run. by rewrite foldl_app. Qed.

Lemma run_serialised (events : list Event) (i : Instance) :
  serialised i → serialised (run events i).
Proof.
  induction events as [|e events IH] using rev_ind; [done|].
  intros H. rewrite run_snoc. by apply step_serialised, IH.
Qed.

(** A value is left to render only in a [CONFIGURED] component. *)
Lemma run_settled (events : list Event) (i : Instance) :
  (adapterState i ≠ CONFIGURED → scheduled i = None) →
  adapterState (run events i) ≠ CONFIGURED → scheduled (run events i) = None.
Proof.
  destruct events as [|e events _] using rev_ind; [intros H; exact H|].
  intros _. rewrite run_snoc. apply step_settled.
Qed.

Lemma reachable_serialised (i : Instance) : reachable i → serialised i.
Proof. intros (p & events & ->). apply run_serialised, mount_serialised. Qed.

Lemma reachable_settled (i : Instance) :
  reachable i → adapterState i ≠ CONFIGURED → scheduled i = None.
Proof.
  intros (p & events & ->). apply run_settled. intros _.
  rewrite mount_unfold. apply mountHandler_scheduled.
Qed.

Lemma serialised_inflight (i : Instance) :
  serialised i → length (inflight i) ≤ 1.
Proof. intros [-> | (_ & k & ->)]; simpl; lia. Qed.

Lemma reachable_configured_inflight (i : Instance) :
  reachable i → adapterState i ≠ CONFIGURING → inflight i = [].
Proof.
  intros Hr Hst.
  by destruct (reachable_serialised i Hr) as [? | [? _]].
Qed.

Lemma reachable_outstanding (i : Instance) (n : nat) (k : Continuation) :
  reachable i → inflight i !! n = Some k →
  n = 0 ∧ inflight i = [k] ∧ adapterState i = CONFIGURING
  ∧ scheduled i = None.
Proof.
  intros Hr Hk.
  destruct (reachable_serialised i Hr) as [Hnil | (Hst & k' & Hk')].
  { by rewrite Hnil in Hk. }
  rewrite Hk' in Hk. destruct n as [|n]; [|done].
  simpl in Hk. simplify_eq. split_and!; try done.
  apply reachable_settled; [done | congruence].
Qed.

(** ** While [CONFIGURING] *)

(** A component that is [CONFIGURING] stays so, and calls nobody, for as
    long as no promise resolves. *)
Lemma configuring_step (e : Event) (i : Instance) :
  adapterState i = CONFIGURING →
  isReconfigurationRequest e = true ∨ inflight i = [] →
  adapterState (step e i) = CONFIGURING
  ∧ calls (step e i) = calls i
  ∧ inflight (step e i) = inflight i.
Proof.
  intros Hst Hev.
  destruct (step_frame e i) as (_ & -> & -> & ->).
  destruct e as [p | next o | n | n]; simpl.
  - destruct (bool_decide _); by_cases i; by subst.
  - by_cases i; by subst.
  - destruct Hev as [? | Hnil]; [done|]. by rewrite Hnil.
  - destruct Hev as [? | Hnil]; [done|]. by rewrite Hnil.
Qed.

Lemma configuring_run (events : list Event) (i : Instance) :
  adapterState i = CONFIGURING →
  forallb isReconfigurationRequest events = true ∨ inflight i = [] →
  adapterState (run events i) = CONFIGURING
  ∧ calls (run events i) = calls i
  ∧ inflight (run events i) = inflight i.
Proof.
  induction events as [|e events IH] using rev_ind; [done|].
  intros Hst Hev. rewrite run_snoc.
  destruct IH as (H1 & H3 & H4); [done | |].
  { destruct Hev as [Hev | ?]; [left | by right].
    rewrite forallb_app in Hev. by apply andb_true_iff in Hev as [? _]. }
  destruct (configuring_step e (run events i)) as (? & ? & ?); [done | |].
  { destruct Hev as [Hev | Hnil]; [left | right; congruence].
    rewrite forallb_app in Hev. simpl in Hev.
    apply andb_true_iff in Hev as [_ Hev]. by rewrite andb_true_r in Hev. }
  repeat split; congruence.
Qed.

(** C1.  At most one adapter call is outstanding in every state the
    component can reach; and while the component is CONFIGURING, no
    sequence of reconfiguration requests (changed props, calls through the
    context) makes it call the adapter: the call log, the outstanding
    promise and the lifecycle state are as before. *)
Theorem at_most_one_in_flight (p : Props) (before : list Event) :
  length (inflight (run before (mount p))) ≤ 1
  ∧ ∀ requests : list Event,
      adapterState (run before (mount p)) = CONFIGURING →
      forallb isReconfigurationRequest requests = true →
      calls (run requests (run before (mount p)))
        = calls (run before (mount p))
      ∧ inflight (run requests (run before (mount p)))
        = inflight (run before (mount p))
      ∧ adapterState (run requests (run before (mount p))) = CONFIGURING.
Proof.
  assert (reachable (run before (mount p))) as Hr by (by exists p, before).
  split.
  - by apply serialised_inflight, reachable_serialised.
  - intros requests Hst Hreq.
    destruct (configuring_run requests (run before (mount p)))
      as (? & ? & ?); auto.
Qed.

(** C7.  Once the outstanding configure or reconfigure promise is rejected,
    whatever happens next (renders, requests, settlements) the component
    stays CONFIGURING, nothing is outstanding, and nothing more is sent
    to the adapter or to the application's callbacks. *)
Theorem rejection_stalls (p : Props) (before after : list Event) (n : nat) :
  is_Some (inflight (run before (mount p)) !! n) →
  adapterState (run after (step (Reject n) (run before (mount p))))
    = CONFIGURING
  ∧ calls (run after (step (Reject n) (run before (mount p))))
    = calls (run before (mount p))
  ∧ inflight (run after (step (Reject n) (run before (mount p)))) = [].
Proof.
  intros [k Hk].
  set (i := run before (mount p)) in *.
  assert (reachable i) as Hr by (by exists p, before).
  destruct (reachable_outstanding i n k Hr Hk) as (-> & Hk' & Hst & Hs).
  assert (step (Reject 0) i = withInflight [] i) as Hstep.
  { unfold ConfigureAdapter.step. simpl. rewrite Hk.
    rewrite flush_quiet by done. by rewrite Hk'. }
  rewrite Hstep.
  destruct (configuring_run after (withInflight [] i))
    as (? & ? & ?); auto.
Qed.

(** ** Reconfiguration requests *)

Lemma request_configured (next : AdapterArgs)
    (o : AdapterReconfigurationOptions) (i : Instance) :
  adapterState i = CONFIGURED →
  handler (RequestReconfiguration next o) i =
    withScheduled
      (Some (mergeAdapterArgs (appliedAdapterArgs i)
               {| nextAdapterArgs := next; options := o |})) i.
Proof. intros H. by by_cases i. Qed.

Lemma request_queued (next : AdapterArgs)
    (o : AdapterReconfigurationOptions) (i : Instance) :
  adapterState i ≠ CONFIGURED → scheduled i = None →
  step (RequestReconfiguration next o) i =
    withPending
      (Some (mergeAdapterArgs
               (default (appliedAdapterArgs i) (pendingAdapterArgs i))
               {| nextAdapterArgs := next; options := o |})) i.
Proof.
  intros H Hs. unfold ConfigureAdapter.step.
  rewrite flush_quiet; by by_cases i.
Qed.

(** A request to a component that is not CONFIGURED is merged into the
    pending arguments (the applied ones when nothing is pending) and
    changes nothing else: the adapter is not called. *)
Lemma request_queued_reachable (p : Props) (before : list Event)
    (next : AdapterArgs) (o : AdapterReconfigurationOptions) :
  adapterState (run before (mount p)) ≠ CONFIGURED →
  step (RequestReconfiguration next o) (run before (mount p))
  = withPending
      (Some (mergeAdapterArgs
               (default (appliedAdapterArgs (run before (mount p)))
                  (pendingAdapterArgs (run before (mount p))))
               {| nextAdapterArgs := next; options := o |}))
      (run before (mount p)).
Proof.
  intros Hst. apply request_queued; [done|].
  apply reachable_settled; [by exists p, before | done].
Qed.

(** A request never reaches the adapter by itself, whatever the state: the
    call log, the promises in flight and the lifecycle state are as
    before. *)
Lemma request_calls_nobody (next : AdapterArgs)
    (o : AdapterReconfigurationOptions) (i : Instance) :
  calls (step (RequestReconfiguration next o) i) = calls i
  ∧ adapterState (step (RequestReconfiguration next o) i) = adapterState i
  ∧ inflight (step (RequestReconfiguration next o) i) = inflight i.
Proof.
  destruct (step_frame (RequestReconfiguration next o) i)
    as (_ & -> & -> & ->).
  change (handler (RequestReconfiguration next o) i)
    with (reconfigureOrQueue next o i).
  by destruct (reconfigureOrQueue_frame next o i) as (-> & -> & -> & _).
Qed.

(** ** Settling the adapter's promise *)

(** Re-rendering a [CONFIGURED] component with an empty pending slot
    leaves the slot empty. *)
Lemma flush_configured_pending (n : nat) (i : Instance) :
  adapterState i = CONFIGURED → pendingAdapterArgs i = None →
  pendingAdapterArgs (flush n i) = None.
Proof.
  revert i. induction n as [|n IH]; intros i Hst Hp; [done|].
  rewrite flush_unfold. destruct (scheduled i) as [next|]; [|done].
  destruct (decide (next = appliedAdapterArgs i)); [done|].
  apply IH; rewrite rerender_cases, Hst; done.
Qed.

(** A request to a [CONFIGURED] component whose merge is a new value
    empties the pending slot, whatever it held: the request was merged
    into the applied arguments, and the render of the merged value runs
    the effect on [[appliedAdapterArgs]]. *)
Lemma request_while_configured_empties_pending (next : AdapterArgs)
    (o : AdapterReconfigurationOptions) (i : Instance) :
  adapterState i = CONFIGURED →
  mergeAdapterArgs (appliedAdapterArgs i)
    {| nextAdapterArgs := next; options := o |}
  ≠ appliedAdapterArgs i →
  pendingAdapterArgs (step (RequestReconfiguration next o) i) = None.
Proof.
  intros Hst Hne. unfold ConfigureAdapter.step.
  rewrite request_configured by done.
  change NESTED_UPDATE_LIMIT with (S 49).
  rewrite (flush_new 49 (mergeAdapterArgs (appliedAdapterArgs i)
                           {| nextAdapterArgs := next; options := o |}))
    by done.
  apply flush_configured_pending; rewrite rerender_cases; simpl;
    by rewrite Hst.
Qed.


(** ** Default flags *)

(** C6.  Default flags supplied at mount (an object with at least one
    flag: the default prop is the empty object) are published through the
    flags-change callback once, first thing, before the adapter is
    contacted and whether or not its configuration is deferred. *)
Theorem default_flags_published_at_mount (p : Props) (flags : Flags) :
  defaultFlags p = Some flags → flags ≠ ∅ →
  calls (mount p)
  = OnFlagsStateChange flags
      :: (if shouldDeferAdapterConfiguration p then []
          else [AdapterConfigure (adapterArgs p)]).
Proof.
  intros Hf Hne. rewrite mount_unfold, mountHandler_eq. simpl. rewrite Hf.
  rewrite bool_decide_true; [done|].
  apply map_size_non_empty_iff in Hne. lia.
Qed.

(** Nothing is published for the default prop. *)
Lemma default_flags_omitted (p : Props) :
  defaultFlags p = Some ∅ →
  calls (mount p)
  = if shouldDeferAdapterConfiguration p then []
    else [AdapterConfigure (adapterArgs p)].
Proof.
  intros Hf. rewrite mount_unfold, mountHandler_eq. simpl. rewrite Hf.
  by rewrite bool_decide_false by (rewrite map_size_empty; lia).
Qed.

(** ** One step, seen from the call log *)

Local Abbreviation requestEvents := (@requestEvents AdapterArgs Node).

(** What the handler of a render leaves, state by state. *)
Lemma render_handler (p : Props) (i : Instance) :
  ∃ added,
    calls (handler (Render p) i) = calls i ++ added
    ∧ appendedBy (adapterState i) added
    ∧ (adapterState (handler (Render p) i) = UNCONFIGURED
       ↔ adapterState i = UNCONFIGURED ∧ added = []).
Proof.
  simpl.
  destruct (bool_decide (adapterArgs p ≠ adapterArgs (props i)));
    by_cases i; subst;
    first
      [ exists []; rewrite app_nil_r;
        by (repeat split; try (by left); try (by intros [? ?]); try done;
            intros [? ?]; done)
      | eexists [AdapterConfigure _];
        by (repeat split; try (right; left; split; [done | by eexists]);
            try done; try (by intros [? ?]); intros [? ?]; done)
      | eexists [AdapterReconfigure _];
        by (repeat split; try (right; right; split; [done | by eexists]);
            try done; try (by intros [? ?]); intros [? ?]; done) ].
Qed.

Lemma handler_observed (e : Event) (i : Instance) :
  serialised i →
  ∃ added,
    calls (handler e i) = calls i ++ added
    ∧ appendedBy (adapterState i) added
    ∧ (adapterState (handler e i) = UNCONFIGURED
       ↔ adapterState i = UNCONFIGURED ∧ added = []).
Proof.
  intros Hser. destruct e as [p | next o | n | n].
  - apply render_handler.
  - exists []. rewrite app_nil_r.
    change (handler (RequestReconfiguration next o) i)
      with (reconfigureOrQueue next o i).
    destruct (reconfigureOrQueue_frame next o i) as (-> & _ & -> & _).
    split_and!; [done | by left |]. by split; [|intros [? _]].
  - simpl. destruct (inflight i !! n) as [k|] eqn:Hk.
    + destruct Hser as [Hnil | (Hst & k' & Hk')]; [by rewrite Hnil in Hk|].
      destruct (continue_frame k (withInflight (delete n (inflight i)) i))
        as (_ & -> & _ & _ & ->).
      exists []. rewrite app_nil_r, Hst. simpl.
      split_and!; [done | by left |]. split; [done | by intros [? _]].
    + exists []. rewrite app_nil_r.
      split_and!; [done | by left |]. by split; [|intros [? _]].
  - simpl. exists []. rewrite app_nil_r.
    destruct (inflight i !! n);
      (split_and!; [done | by left |]; by split; [|intros [? _]]).
Qed.

(** Every step adds at most one call to the log: the [configure] call if
    the component was [UNCONFIGURED], a [reconfigure] call if it was not;
    and the component is [UNCONFIGURED] afterwards only if it was before
    and called nobody. *)
Lemma step_observed (e : Event) (i : Instance) :
  serialised i →
  ∃ added,
    calls (step e i) = calls i ++ added
    ∧ appendedBy (adapterState i) added
    ∧ (adapterState (step e i) = UNCONFIGURED
       ↔ adapterState i = UNCONFIGURED ∧ added = []).
Proof.
  intros Hser. destruct (step_frame e i) as (_ & -> & _ & ->).
  by apply handler_observed.
Qed.

(** ** The lifecycle predicates *)

(** X1.  The two predicates the effects branch on never hold together:
    [getIsAdapterConfigured] holds exactly in CONFIGURED (its second test
    is implied by the first), [getDoesAdapterNeedInitialConfiguration]
    exactly in UNCONFIGURED, and neither holds exactly while
    CONFIGURING. *)
Theorem lifecycle_predicates_exclusive (i : Instance) :
  getIsAdapterConfigured i = bool_decide (adapterState i = CONFIGURED)
  ∧ getDoesAdapterNeedInitialConfiguration i
    = bool_decide (adapterState i = UNCONFIGURED)
  ∧ getIsAdapterConfigured i && getDoesAdapterNeedInitialConfiguration i
    = false
  ∧ (getIsAdapterConfigured i || getDoesAdapterNeedInitialConfiguration i
     = false ↔ adapterState i = CONFIGURING).
Proof.
  unfold getIsAdapterConfigured, getDoesAdapterNeedInitialConfiguration.
  destruct (adapterState i); split_and!; try done; by split.
Qed.

(** ** Mounting *)

Lemma filter_publishedAtMount (p : Props) :
  filter (λ c, isAdapterCall c = false) (publishedAtMount p)
  = publishedAtMount p
  ∧ filter (λ c, isAdapterCall c = true) (publishedAtMount p) = [].
Proof.
  unfold publishedAtMount.
  destruct (defaultFlags p) as [flags|]; [|done].
  by destruct (bool_decide (0 < size flags)).
Qed.

Lemma mount_calls (p : Props) :
  calls (mount p)
  = publishedAtMount p
    ++ (if shouldDeferAdapterConfiguration p then []
        else [AdapterConfigure (adapterArgs p)]).
Proof. by rewrite mount_unfold, mountHandler_eq. Qed.

(** X2.  Although the mount effect and the props effect both run after the
    first render, mounting calls configure exactly once, with the props'
    arguments, and leaves the component CONFIGURING; a deferred mount
    calls nobody and stays UNCONFIGURED.  Either way the props' arguments
    are queued as pending, merged into themselves. *)
Theorem mount_configures_exactly_once (p : Props) :
  adapterCalls (mount p)
  = (if shouldDeferAdapterConfiguration p then []
     else [AdapterConfigure (adapterArgs p)])
  ∧ adapterState (mount p)
    = (if shouldDeferAdapterConfiguration p then UNCONFIGURED
       else CONFIGURING)
  ∧ inflight (mount p)
    = (if shouldDeferAdapterConfiguration p then [] else [ThenConfigure])
  ∧ appliedAdapterArgs (mount p) = adapterArgs p
  ∧ pendingAdapterArgs (mount p)
    = Some (mergeAdapterArgs (adapterArgs p)
              {| nextAdapterArgs := adapterArgs p;
                 options := {| shouldOverwrite := false |} |}).
Proof.
  split.
  - unfold adapterCalls. rewrite mount_calls, filter_app.
    rewrite (proj2 (filter_publishedAtMount p)).
    by destruct (shouldDeferAdapterConfiguration p).
  - by rewrite mount_unfold, mountHandler_eq.
Qed.

(** ** Deferred configuration *)

Lemma deferred_step (e : Event) (i : Instance) :
  adapterState i = UNCONFIGURED → inflight i = [] → scheduled i = None →
  shouldDeferAdapterConfiguration (props i) = true →
  keepsDeferred e = true →
  adapterState (step e i) = UNCONFIGURED
  ∧ inflight (step e i) = []
  ∧ scheduled (step e i) = None
  ∧ shouldDeferAdapterConfiguration (props (step e i)) = true
  ∧ calls (step e i) = calls i
  ∧ (is_Some (pendingAdapterArgs i) → is_Some (pendingAdapterArgs (step e i))).
Proof.
  intros Hst Hfl Hs Hd He. unfold ConfigureAdapter.step.
  assert (adapterState (handler e i) = UNCONFIGURED
          ∧ inflight (handler e i) = []
          ∧ scheduled (handler e i) = None
          ∧ shouldDeferAdapterConfiguration (props (handler e i)) = true
          ∧ calls (handler e i) = calls i
          ∧ (is_Some (pendingAdapterArgs i) →
             is_Some (pendingAdapterArgs (handler e i)))) as H.
  { destruct e as [p | next o | n | n]; simpl in *.
    - destruct (bool_decide _); by_cases i; simplify_eq; by eauto.
    - by_cases i; simplify_eq; by eauto.
    - by rewrite Hfl.
    - by rewrite Hfl. }
  destruct H as (? & ? & ? & ? & ? & ?). by rewrite flush_quiet.
Qed.

Lemma deferred_run (p : Props) (events : list Event) :
  shouldDeferAdapterConfiguration p = true →
  forallb keepsDeferred events = true →
  adapterState (run events (mount p)) = UNCONFIGURED
  ∧ inflight (run events (mount p)) = []
  ∧ scheduled (run events (mount p)) = None
  ∧ shouldDeferAdapterConfiguration (props (run events (mount p))) = true
  ∧ calls (run events (mount p)) = publishedAtMount p
  ∧ is_Some (pendingAdapterArgs (run events (mount p))).
Proof.
  intros Hd.
  induction events as [|e events IH] using rev_ind; intros Hev.
  - simpl. rewrite mount_calls. rewrite mount_unfold, mountHandler_eq.
    simpl. rewrite Hd, app_nil_r. by split_and!.
  - rewrite forallb_app in Hev. apply andb_true_iff in Hev as [Hev He].
    simpl in He. rewrite andb_true_r in He.
    destruct (IH Hev) as (Hst & Hfl & Hs & Hdp & Hc & Hp).
    rewrite run_snoc.
    destruct (deferred_step e (run events (mount p)))
      as (? & ? & ? & ? & Hc' & Hp'); try done.
    split_and!; try done; [congruence | by apply Hp'].
Qed.

(** X3.  A component mounted with the configuration deferred, and kept
    deferred by every render, never contacts the adapter, whatever is
    requested meanwhile: it stays UNCONFIGURED with nothing in flight, its
    call log is what the mount published, and the requests are held in
    the pending slot. *)
Theorem deferred_configuration_holds (p : Props) (events : list Event) :
  shouldDeferAdapterConfiguration p = true →
  forallb keepsDeferred events = true →
  adapterState (run events (mount p)) = UNCONFIGURED
  ∧ inflight (run events (mount p)) = []
  ∧ calls (run events (mount p)) = publishedAtMount p
  ∧ is_Some (pendingAdapterArgs (run events (mount p))).
Proof.
  intros Hd Hev.
  by destruct (deferred_run p events Hd Hev) as (? & ? & _ & _ & ? & ?).
Qed.

(** X4.  The first render that no longer defers the configuration of an
    UNCONFIGURED component calls configure once, with what was queued
    meanwhile (the pending arguments, else the applied ones), the new
    props merged in first when they carry new arguments; the component is
    then CONFIGURING. *)
Theorem deferred_handoff_configures_with_pending
    (p : Props) (before : list Event) (p' : Props) :
  adapterState (run before (mount p)) = UNCONFIGURED →
  shouldDeferAdapterConfiguration p' = false →
  calls (step (Render p') (run before (mount p)))
  = calls (run before (mount p))
    ++ [AdapterConfigure
          (if decide (adapterArgs p' = adapterArgs (props (run before (mount p))))
           then getAdapterArgsForConfiguration (run before (mount p))
           else mergeAdapterArgs
                  (getAdapterArgsForConfiguration (run before (mount p)))
                  {| nextAdapterArgs := adapterArgs p';
                     options := {| shouldOverwrite := false |} |})]
  ∧ adapterState (step (Render p') (run before (mount p))) = CONFIGURING
  ∧ inflight (step (Render p') (run before (mount p))) = [ThenConfigure].
Proof.
  set (i := run before (mount p)). intros Hst Hd.
  assert (reachable i) as Hr by (by exists p, before).
  assert (scheduled i = None) as Hs
    by (apply reachable_settled; [done | congruence]).
  assert (inflight i = []) as Hfl
    by (apply reachable_configured_inflight; [done | congruence]).
  unfold ConfigureAdapter.step, getAdapterArgsForConfiguration. simpl.
  destruct (decide (adapterArgs p' = adapterArgs (props i))) as [He | He].
  - rewrite bool_decide_false by (by intros ?).
    rewrite flush_quiet; by_cases i; by simplify_eq.
  - rewrite bool_decide_true by done.
    rewrite flush_quiet; by_cases i; by simplify_eq.
Qed.

(** ** Requests while the adapter is not CONFIGURED *)

Lemma queued_step (r : AdapterReconfiguration) (i : Instance) :
  adapterState i ≠ CONFIGURED → scheduled i = None →
  getAdapterArgsForConfiguration
    (step (RequestReconfiguration (nextAdapterArgs r) (options r)) i)
  = mergeAdapterArgs (getAdapterArgsForConfiguration i) r
  ∧ adapterState
      (step (RequestReconfiguration (nextAdapterArgs r) (options r)) i)
    = adapterState i
  ∧ scheduled
      (step (RequestReconfiguration (nextAdapterArgs r) (options r)) i)
    = None
  ∧ calls (step (RequestReconfiguration (nextAdapterArgs r) (options r)) i)
    = calls i.
Proof.
  intros Hst Hs. rewrite request_queued by done.
  unfold getAdapterArgsForConfiguration. simpl. by destruct r.
Qed.

Lemma queued_run (requests : list AdapterReconfiguration) (i : Instance) :
  adapterState i ≠ CONFIGURED → scheduled i = None →
  getAdapterArgsForConfiguration (run (requestEvents requests) i)
  = foldl mergeAdapterArgs (getAdapterArgsForConfiguration i) requests
  ∧ adapterState (run (requestEvents requests) i) = adapterState i
  ∧ scheduled (run (requestEvents requests) i) = None
  ∧ calls (run (requestEvents requests) i) = calls i.
Proof.
  intros Hst Hs.
  induction requests as [|r requests IH] using rev_ind; [done|].
  unfold ConfigureAdapter.requestEvents. rewrite map_app. simpl.
  fold (requestEvents requests). rewrite run_snoc, foldl_app. simpl.
  destruct IH as (Ha & Hb & Hc & Hd).
  destruct (queued_step r (run (requestEvents requests) i))
    as (-> & -> & -> & ->); [congruence | done |].
  by rewrite Ha.
Qed.

(** X5.  Requests that reach a component which is not CONFIGURED are
    folded into the pending slot in arrival order: the arguments the next
    configuration will be given are the merge function folded over the
    requests, starting from the arguments it would have been given
    before; the adapter is not called and the lifecycle state does not
    move. *)
Theorem pending_folds_requests_in_order
    (p : Props) (before : list Event)
    (requests : list AdapterReconfiguration) :
  adapterState (run before (mount p)) ≠ CONFIGURED →
  getAdapterArgsForConfiguration
    (run (requestEvents requests) (run before (mount p)))
  = foldl mergeAdapterArgs
      (getAdapterArgsForConfiguration (run before (mount p))) requests
  ∧ adapterState (run (requestEvents requests) (run before (mount p)))
    = adapterState (run before (mount p))
  ∧ calls (run (requestEvents requests) (run before (mount p)))
    = calls (run before (mount p)).
Proof.
  intros Hst.
  destruct (queued_run requests (run before (mount p))) as (? & ? & _ & ?);
    try done.
  apply reachable_settled; [by exists p, before | done].
Qed.

(** ** The call log of a mounted component *)

Lemma filter_added (before : AdapterState) (added : list Call) :
  appendedBy (AdapterArgs := AdapterArgs) before added →
  filter (λ c, isAdapterCall c = false) added = []
  ∧ filter (λ c, isAdapterCall c = true) added = added
  ∧ length added ≤ 1.
Proof.
  intros [-> | [(_ & a & ->) | (_ & a & ->)]]; split_and!; try done;
    simpl; lia.
Qed.

Lemma run_log (p : Props) (events : list Event) :
  flagsCalls (run events (mount p)) = publishedAtMount p
  ∧ ((adapterState (run events (mount p)) = UNCONFIGURED
      ∧ adapterCalls (run events (mount p)) = [])
     ∨ (adapterState (run events (mount p)) ≠ UNCONFIGURED
        ∧ ∃ a rest,
            adapterCalls (run events (mount p)) = AdapterConfigure a :: rest
            ∧ Forall (λ c, isReconfigureCall c = true) rest)).
Proof.
  induction events as [|e events IH] using rev_ind.
  - simpl. unfold flagsCalls, adapterCalls. rewrite mount_calls, !filter_app.
    destruct (filter_publishedAtMount p) as [-> ->].
    rewrite mount_unfold, mountHandler_eq. simpl.
    destruct (shouldDeferAdapterConfiguration p); simpl.
    + rewrite app_nil_r. split; [done | by left].
    + rewrite app_nil_r. split; [done|]. right. split; [done|].
      by exists (adapterArgs p), [].
  - rewrite run_snoc. set (i := run events (mount p)) in *.
    assert (reachable i) as Hr by (by exists p, events).
    destruct (step_observed e i) as (added & Hc & Ha & Hu);
      [by apply reachable_serialised |].
    destruct (filter_added _ _ Ha) as (Hf & Hg & _).
    destruct IH as [IHf IHa]. unfold flagsCalls, adapterCalls in *.
    rewrite Hc, !filter_app, Hf, Hg, app_nil_r. split; [done|].
    destruct IHa as [[Hst Hnil] | (Hst & a & rest & Hl & Hrest)].
    + rewrite Hnil. simpl.
      destruct Ha as [-> | [(_ & a & ->) | (Hne & _)]]; [| |done].
      * left. split; [by apply Hu | done].
      * right. split; [|by exists a, []].
        intros Hx. by apply Hu in Hx as [_ ?].
    + right. split; [by intros [? _]%Hu|].
      rewrite Hl. exists a, (rest ++ added). split; [done|].
      apply Forall_app. split; [done|].
      destruct Ha as [-> | [(? & _) | (_ & a' & ->)]]; [done | done |].
      by apply Forall_singleton.
Qed.

(** X6.  The adapter calls of a mounted component always read: nothing
    while it is UNCONFIGURED; otherwise one configure call followed by
    reconfigure calls only.  So configure is called at most once, and
    reconfigure never before it. *)
Theorem adapter_log_configure_then_reconfigures
    (p : Props) (events : list Event) :
  (adapterState (run events (mount p)) = UNCONFIGURED
   ∧ adapterCalls (run events (mount p)) = [])
  ∨ (adapterState (run events (mount p)) ≠ UNCONFIGURED
     ∧ ∃ a rest,
         adapterCalls (run events (mount p)) = AdapterConfigure a :: rest
         ∧ Forall (λ c, isReconfigureCall c = true) rest).
Proof. apply run_log. Qed.

(** X8.  The component invokes the flags-change callback at mount and
    never again: whatever happens afterwards, the flags-change calls of the
    log are the default flags published at mount (none when they are
    empty or null). *)
Theorem flags_callback_only_at_mount (p : Props) (events : list Event) :
  flagsCalls (run events (mount p)) = publishedAtMount p
  ∧ length (flagsCalls (run events (mount p))) ≤ 1.
Proof.
  destruct (run_log p events) as [-> _]. split; [done|].
  unfold publishedAtMount. destruct (defaultFlags p) as [flags|]; [|simpl; lia].
  destruct (bool_decide _); simpl; lia.
Qed.

Lemma run_leaves_unconfigured (after : list Event) (i : Instance) :
  serialised i →
  adapterState i ≠ UNCONFIGURED →
  adapterState (run after i) ≠ UNCONFIGURED.
Proof.
  intros Hser Hst.
  induction after as [|e after IH] using rev_ind; [exact Hst|].
  rewrite run_snoc.
  destruct (step_observed e (run after i)) as (added & _ & _ & Hu);
    [by apply run_serialised |].
  by intros [? _]%Hu.
Qed.

(** X7.  Once the component has left UNCONFIGURED it never comes back to
    it: nothing that happens to a mounted component un-configures it. *)
Theorem never_unconfigured_again
    (p : Props) (before after : list Event) :
  adapterState (run before (mount p)) ≠ UNCONFIGURED →
  adapterState (run after (run before (mount p))) ≠ UNCONFIGURED.
Proof.
  intros Hst. apply run_leaves_unconfigured; [|exact Hst].
  apply reachable_serialised. by exists p, before.
Qed.

(** X9.  Whatever happens to a mounted component, the call log only
    grows, and by at most one call per event. *)
Theorem one_adapter_call_per_event
    (p : Props) (before : list Event) (e : Event) :
  ∃ added,
    calls (step e (run before (mount p)))
    = calls (run before (mount p)) ++ added
    ∧ length added ≤ 1
    ∧ Forall (λ c, isAdapterCall c = true) added.
Proof.
  destruct (step_observed e (run before (mount p))) as (added & Hc & Ha & _).
  - apply reachable_serialised. by eexists _, _.
  - exists added. destruct (filter_added _ _ Ha) as (_ & Hg & Hl).
    split_and!; [done | done |].
    destruct Ha as [-> | [(_ & a & ->) | (_ & a & ->)]];
      [done | by apply Forall_singleton | by apply Forall_singleton].
Qed.

(** X10.  An adapter promise is outstanding only while the component is
    CONFIGURING: in UNCONFIGURED and in CONFIGURED nothing is in
    flight. *)
Theorem outstanding_only_while_configuring
    (p : Props) (events : list Event) :
  adapterState (run events (mount p)) ≠ CONFIGURING →
  inflight (run events (mount p)) = [].
Proof.
  intros Hst. apply reachable_configured_inflight; [|done].
  by exists p, events.
Qed.

(** ** Renders by the parent *)

(** X11.  Every render by the parent of a CONFIGURED component calls
    reconfigure once, with the pending arguments if there are any and the
    applied ones otherwise (arguments the props of that very render bring
    are not part of this call), and leaves the component CONFIGURING. *)
Theorem render_while_configured_reconfigures
    (p : Props) (before : list Event) (p' : Props) :
  adapterState (run before (mount p)) = CONFIGURED →
  calls (step (Render p') (run before (mount p)))
  = calls (run before (mount p))
    ++ [AdapterReconfigure
          (getAdapterArgsForConfiguration (run before (mount p)))]
  ∧ adapterState (step (Render p') (run before (mount p))) = CONFIGURING
  ∧ inflight (step (Render p') (run before (mount p))) = [ThenReconfigure].
Proof.
  set (i := run before (mount p)). intros Hst.
  assert (reachable i) as Hr by (by exists p, before).
  assert (inflight i = []) as Hfl
    by (apply reachable_configured_inflight; [done | congruence]).
  destruct (step_frame (Render p') i) as (_ & -> & -> & ->).
  unfold getAdapterArgsForConfiguration. simpl.
  destruct (bool_decide _); by_cases i; by simplify_eq.
Qed.

(** X12.  A render that brings the same adapterArgs while a call is in
    flight does nothing but replace the props: no effect touches the
    pending or the applied arguments, the state or the adapter. *)
Theorem render_without_news_is_idle
    (p : Props) (before : list Event) (p' : Props) :
  adapterState (run before (mount p)) = CONFIGURING →
  adapterArgs p' = adapterArgs (props (run before (mount p))) →
  step (Render p') (run before (mount p))
  = withProps p' (run before (mount p)).
Proof.
  set (i := run before (mount p)). intros Hst He.
  assert (reachable i) as Hr by (by exists p, before).
  assert (scheduled i = None) as Hs
    by (apply reachable_settled; [done | congruence]).
  unfold ConfigureAdapter.step. simpl.
  rewrite bool_decide_false by (by intros ?).
  rewrite flush_quiet; by_cases i; by simplify_eq.
Qed.

(** ** Values that are not new *)

(** X13.  React renders a state value only if it is a new one, so a value
    that is the applied one starts no cycle.  A request to a CONFIGURED
    component with nothing left to render, whose merge returns the applied
    arguments, changes nothing at all; and when the configure promise
    resolves while the pending value is the applied one, the component
    becomes CONFIGURED, calls nobody and keeps the value pending. *)
Theorem same_value_starts_no_cycle
    (p : Props) (before : list Event) :
  (∀ next o,
     adapterState (run before (mount p)) = CONFIGURED →
     scheduled (run before (mount p)) = None →
     mergeAdapterArgs (appliedAdapterArgs (run before (mount p)))
       {| nextAdapterArgs := next; options := o |}
     = appliedAdapterArgs (run before (mount p)) →
     step (RequestReconfiguration next o) (run before (mount p))
     = run before (mount p))
  ∧ (∀ n,
       inflight (run before (mount p)) !! n = Some ThenConfigure →
       pendingAdapterArgs (run before (mount p))
       = Some (appliedAdapterArgs (run before (mount p))) →
       step (Resolve n) (run before (mount p))
       = setAdapterState CONFIGURED
           (withInflight [] (run before (mount p)))).
Proof.
  set (i := run before (mount p)).
  assert (reachable i) as Hr by (by exists p, before).
  split.
  - intros next o Hst Hs Hm. unfold ConfigureAdapter.step.
    rewrite request_configured by done. rewrite Hm.
    rewrite flush_limit_same by done.
    destruct i. simpl in *. by subst.
  - intros n Hk Hq.
    destruct (reachable_outstanding i n _ Hr Hk) as (-> & Hfl & Hst & Hs).
    unfold ConfigureAdapter.step. simpl. rewrite Hk. simpl. rewrite Hq.
    rewrite flush_limit_same by done.
    rewrite Hfl. destruct i. simpl in *. by subst.
Qed.

(** ** Who calls the adapter *)

(** X14.  Only a render by the parent makes the component call the
    adapter.  A request through the context, the resolution and the
    rejection of a promise, with all the re-rendering they cause, leave
    the call log as it is, add no promise, and never turn the component
    CONFIGURING: nothing follows the resolution of configure, or a request
    to a CONFIGURED component, until the parent renders the component
    again. *)
Theorem adapter_called_after_renders_only (e : Event) (i : Instance) :
  isRender e = false →
  calls (step e i) = calls i
  ∧ length (inflight (step e i)) ≤ length (inflight i)
  ∧ (adapterState (step e i) = CONFIGURING → adapterState i = CONFIGURING).
Proof.
  intros He. destruct (step_frame e i) as (_ & -> & -> & ->).
  destruct e as [p | next o | n | n]; [done | | |].
  - change (handler (RequestReconfiguration next o) i)
      with (reconfigureOrQueue next o i).
    by destruct (reconfigureOrQueue_frame next o i) as (-> & -> & -> & _).
  - simpl. destruct (inflight i !! n) as [k|] eqn:Hk; [|done].
    destruct (continue_frame k (withInflight (delete n (inflight i)) i))
      as (-> & -> & _ & _ & ->).
    simpl. split_and!; [done | | done].
    rewrite length_delete by eauto. lia.
  - simpl. destruct (inflight i !! n) as [k|] eqn:Hk; [|done].
    simpl. split_and!; [done | | done].
    rewrite length_delete by eauto. lia.
Qed.

(** ** The render loop *)

Lemma flush_three (n : nat) (i : Instance) :
  (∀ args x,
     mergeAdapterArgs (mergeAdapterArgs x (overwriteWith args))
       (overwriteWith args)
     = mergeAdapterArgs x (overwriteWith args)) →
  flush (S (S (S n))) i = flush 3 i ∧ scheduled (flush 3 i) = None.
Proof.
  intros Hrepeat. unfold ConfigureAdapter.overwriteWith in Hrepeat.
  destruct (scheduled i) as [v|] eqn:Hs; [|by rewrite !flush_quiet].
  destruct (decide (v = appliedAdapterArgs i)) as [-> | Hv].
  { by rewrite !flush_same. }
  rewrite (flush_new (S (S n)) v i), (flush_new 2 v i) by done.
  pose proof (rerender_cases v i) as Hj.
  set (j := rerender v i) in *.
  destruct (decide (adapterState i = CONFIGURED)) as [Hst | Hst].
  2: { assert (scheduled j = None) as Hq
         by (rewrite Hj; by destruct (adapterState i)).
       by rewrite !flush_quiet. }
  rewrite Hst in Hj.
  set (w := mergeAdapterArgs v _) in Hj.
  assert (scheduled j = Some w ∧ appliedAdapterArgs j = v
          ∧ adapterState j = CONFIGURED ∧ props j = props i)
    as (Hq & Ha & Hc & Hp) by (by rewrite Hj).
  destruct (decide (w = v)) as [Hw | Hw].
  { rewrite !flush_same by congruence. done. }
  rewrite (flush_new (S n) w j), (flush_new 1 w j) by congruence.
  pose proof (rerender_cases w j) as Hk. rewrite Hc, Hp in Hk.
  assert (scheduled (rerender w j) = Some (appliedAdapterArgs (rerender w j)))
    as Hsame.
  { rewrite Hk. simpl. f_equal. subst w. apply Hrepeat. }
  by rewrite !flush_same.
Qed.

(** X15.  The re-rendering that follows an event ends by itself as soon
    as overwriting twice with the same arguments gives the value of the
    first time: whatever the state and the event, at most two re-renders
    follow the handler and no value is left to render.  (In a CONFIGURED
    component every re-render calls the state setter with the props'
    arguments overwriting the value just rendered.) *)
Theorem rerendering_settles_when_overwrite_repeats
    (e : Event) (i : Instance) :
  (∀ args x,
     mergeAdapterArgs (mergeAdapterArgs x (overwriteWith args))
       (overwriteWith args)
     = mergeAdapterArgs x (overwriteWith args)) →
  step e i = flush 3 (handler e i)
  ∧ scheduled (step e i) = None.
Proof.
  intros Hrepeat. unfold ConfigureAdapter.step.
  change NESTED_UPDATE_LIMIT with (S (S (S 47))).
  by destruct (flush_three 47 (handler e i) Hrepeat) as [-> ?].
Qed.

End Lifecycle.

(** ** The render output *)

Section Rendering.

Context {AdapterArgs Node : Type}.

Local Abbreviation Props := (@Props AdapterArgs Node).


(** X16.  The render throws exactly when [React.Children.only] is handed
    something that is not one element, and no render callback takes over
    (there is none, or the adapter is not ready): the children are an
    array with at least one node, or a single truthy child that is not an
    element (text, a number, [true]).  Null, falsy, function and
    single-element children, and the empty array, never make it throw. *)
Theorem render_throws_without_single_element
    (isAdapterReady : bool) (p : Props) :
  renderOutput isAdapterReady p = RenderedThrow
  ↔ (isAdapterReady = false ∨ render p = None)
    ∧ (children p = ChildrenOther true
       ∨ ∃ n nodes, children p = ChildrenArray (n :: nodes)).
Proof.
  unfold renderOutput, renderChildren.
  destruct isAdapterReady, (render p) as [r|],
    (children p) as [| f | n | [|n nodes] | [|]]; simpl; split;
    try done;
    try (by intros [_ [? | (? & ? & ?)]]);
    try (by intros [[?|?] _]);
    intros _; split; eauto.
Qed.

End Rendering.


(** ** Worked examples *)

Section Examples.

Import Fixture.

Local Abbreviation run := (run mergeAdapterArgs).
Local Abbreviation step := (step mergeAdapterArgs).
Local Abbreviation handler := (handler mergeAdapterArgs (Node := string)).
Local Abbreviation mounted := (mount mergeAdapterArgs props0).
Local Abbreviation settling :=
  [Resolve 0; RequestReconfiguration (locale "de") additive; Resolve 0].
Local Abbreviation rendering := [Resolve 0; Render props0].

(** While the first configure call is in flight, a request through the
    context and a render with new arguments reach the adapter not at all. *)
Lemma at_most_one_in_flight_witness :
  adapterState (run [] mounted) = CONFIGURING
  ∧ forallb isReconfigurationRequest whileConfiguring = true
  ∧ calls (run whileConfiguring (run [] mounted)) = calls (run [] mounted).
Proof.
  assert (adapterState (run [] mounted) = CONFIGURING) as H1
    by (vm_compute; reflexivity).
  assert (forallb isReconfigurationRequest whileConfiguring = true) as H2
    by reflexivity.
  split; [exact H1 | split; [exact H2|]].
  exact (proj1 (proj2 (at_most_one_in_flight mergeAdapterArgs props0 [])
                  whileConfiguring H1 H2)).
Defined.

(** The first configure call is rejected: two renders, a request and a
    stray settlement later the component is where it was. *)
Lemma rejection_stalls_witness :
  is_Some (inflight (run [] mounted) !! 0)
  ∧ adapterState (run afterRejection (step (Reject 0) (run [] mounted)))
    = CONFIGURING.
Proof.
  assert (is_Some (inflight (run [] mounted) !! 0)) as H
    by (exists ThenConfigure; vm_compute; reflexivity).
  split; [exact H|].
  exact (proj1 (rejection_stalls mergeAdapterArgs props0 [] afterRejection
                  0 H)).
Defined.

(** C2, as stated, is not what the code does.  The component is CONFIGURED,
    nothing is in flight and nothing is left to render, when
    [{ plan: 'pro' }] is requested through the context.  The request is
    merged into the applied arguments and handed to the state setter, and
    that is all the adapter-wise: after the request and all the
    re-rendering it causes no reconfigure call has been issued, the call
    log reads configure alone, and the component is CONFIGURED, not
    CONFIGURING. *)
Theorem request_while_configured_issues_no_reconfigure :
  adapterState configured0 = CONFIGURED
  ∧ inflight configured0 = []
  ∧ scheduled configured0 = None
  ∧ scheduled
      (handler (RequestReconfiguration (plan "pro") additive) configured0)
    = Some (mergeAdapterArgs (appliedAdapterArgs configured0)
              {| nextAdapterArgs := plan "pro"; options := additive |})
  ∧ calls (step (RequestReconfiguration (plan "pro") additive) configured0)
    = [AdapterConfigure (user "foo")]
  ∧ adapterState
      (step (RequestReconfiguration (plan "pro") additive) configured0)
    = CONFIGURED
  ∧ inflight
      (step (RequestReconfiguration (plan "pro") additive) configured0)
    = [].
Proof.
  split; [by vm_compute|].
  split; [by vm_compute|].
  split; [by vm_compute|].
  split; [by vm_compute|].
  split; [by vm_compute|].
  split; by vm_compute.
Qed.

(** C3, as stated, is not what the code does.  The component was configured,
    its parent rendered it again, [{ locale: 'de' }] was requested while
    that reconfiguration was in flight, and the reconfiguration resolved:
    the component is CONFIGURED and the slot still holds the pending value
    with the locale.  The next request, [{ plan: 'pro' }], is merged into
    the applied arguments, not into that pending value, and the render
    it causes empties the slot: the pending value was never promoted, its
    locale is in neither the applied nor the pending arguments, and no
    adapter call ever carried it. *)
Theorem pending_dropped_without_promotion :
  ∃ q, pendingAdapterArgs settled = Some q
       ∧ adapterState settled = CONFIGURED
       ∧ fields q !! "locale"%string = Some "de"%string
       ∧ replanned = step (RequestReconfiguration (plan "pro") additive) settled
       ∧ scheduled
           (handler (RequestReconfiguration (plan "pro") additive) settled)
         = Some (mergeAdapterArgs (appliedAdapterArgs settled)
                   {| nextAdapterArgs := plan "pro"; options := additive |})
       ∧ pendingAdapterArgs replanned
         ≠ Some (mergeAdapterArgs q
                   {| nextAdapterArgs := plan "pro"; options := additive |})
       ∧ pendingAdapterArgs replanned = None
       ∧ appliedAdapterArgs replanned ≠ q
       ∧ fields (appliedAdapterArgs replanned) !! "locale"%string = None
       ∧ existsb (carries "locale") (calls replanned) = false.
Proof.
  eexists. split; [by vm_compute|].
  split; [by vm_compute|].
  split; [by vm_compute|].
  split; [by vm_compute|].
  split; [by vm_compute|].
  split; [by vm_compute|].
  split; [by vm_compute|].
  split; [by vm_compute|].
  split; by vm_compute.
Qed.





(** Default flags are published although the configuration is deferred
    and the adapter is never contacted. *)
Lemma default_flags_published_at_mount_witness :
  defaultFlags propsWithDefaultFlags = Some someFlags
  ∧ someFlags ≠ ∅
  ∧ calls (mount mergeAdapterArgs propsWithDefaultFlags)
    = [OnFlagsStateChange someFlags].
Proof.
  assert (someFlags ≠ ∅) as Hne by (by vm_compute).
  split; [reflexivity | split; [exact Hne|]].
  exact (default_flags_published_at_mount mergeAdapterArgs
           propsWithDefaultFlags someFlags eq_refl Hne).
Defined.

(** ** Worked examples of the further properties *)

Local Abbreviation deferredMount :=
  (mount mergeAdapterArgs propsWithDefaultFlags).
Local Abbreviation fieldsMount := (mount mergeFields propsFields).

Lemma deferred_configuration_holds_witness :
  shouldDeferAdapterConfiguration propsWithDefaultFlags = true
  ∧ forallb keepsDeferred whileDeferred = true
  ∧ calls (run whileDeferred deferredMount)
    = publishedAtMount propsWithDefaultFlags.
Proof.
  assert (forallb keepsDeferred whileDeferred = true) as H by reflexivity.
  split; [reflexivity | split; [exact H|]].
  exact (proj1 (proj2 (proj2 (deferred_configuration_holds mergeAdapterArgs
                                propsWithDefaultFlags whileDeferred
                                eq_refl H)))).
Defined.

Lemma deferred_handoff_configures_with_pending_witness :
  adapterState (run [] deferredMount) = UNCONFIGURED
  ∧ shouldDeferAdapterConfiguration props0 = false
  ∧ adapterState (step (Render props0) (run [] deferredMount)) = CONFIGURING.
Proof.
  assert (adapterState (run [] deferredMount) = UNCONFIGURED) as H
    by (vm_compute; reflexivity).
  split; [exact H | split; [reflexivity|]].
  exact (proj1 (proj2 (deferred_handoff_configures_with_pending
                         mergeAdapterArgs propsWithDefaultFlags [] props0
                         H eq_refl))).
Defined.

Lemma pending_folds_requests_in_order_witness :
  adapterState (run [] mounted) ≠ CONFIGURED
  ∧ getAdapterArgsForConfiguration
      (run (requestEvents twoRequests) (run [] mounted))
    = foldl mergeAdapterArgs
        (getAdapterArgsForConfiguration (run [] mounted)) twoRequests.
Proof.
  assert (adapterState (run [] mounted) ≠ CONFIGURED) as H
    by (vm_compute; discriminate).
  split; [exact H|].
  exact (proj1 (pending_folds_requests_in_order mergeAdapterArgs props0 []
                  twoRequests H)).
Defined.

Lemma never_unconfigured_again_witness :
  adapterState (run [] mounted) ≠ UNCONFIGURED
  ∧ adapterState (run afterRejection (run [] mounted)) ≠ UNCONFIGURED.
Proof.
  assert (adapterState (run [] mounted) ≠ UNCONFIGURED) as H
    by (vm_compute; discriminate).
  split; [exact H|].
  exact (never_unconfigured_again mergeAdapterArgs props0 [] afterRejection H).
Defined.

Lemma outstanding_only_while_configuring_witness :
  adapterState (run settling mounted) ≠ CONFIGURING
  ∧ inflight (run settling mounted) = [].
Proof.
  assert (adapterState (run settling mounted) ≠ CONFIGURING) as H
    by (vm_compute; discriminate).
  split; [exact H|].
  exact (outstanding_only_while_configuring mergeAdapterArgs props0
           settling H).
Defined.

Lemma render_while_configured_reconfigures_witness :
  adapterState (run settling mounted) = CONFIGURED
  ∧ adapterState (step (Render props0) (run settling mounted)) = CONFIGURING.
Proof.
  assert (adapterState (run settling mounted) = CONFIGURED) as H
    by (vm_compute; reflexivity).
  split; [exact H|].
  exact (proj1 (proj2 (render_while_configured_reconfigures mergeAdapterArgs
                         props0 settling props0 H))).
Defined.

Lemma render_without_news_is_idle_witness :
  adapterState (run [] mounted) = CONFIGURING
  ∧ adapterArgs propsWithChild = adapterArgs (props (run [] mounted))
  ∧ step (Render propsWithChild) (run [] mounted)
    = withProps propsWithChild (run [] mounted).
Proof.
  assert (adapterState (run [] mounted) = CONFIGURING) as H1
    by (vm_compute; reflexivity).
  assert (adapterArgs propsWithChild = adapterArgs (props (run [] mounted)))
    as H2 by (vm_compute; reflexivity).
  split; [exact H1 | split; [exact H2|]].
  exact (render_without_news_is_idle mergeAdapterArgs props0 []
           propsWithChild H1 H2).
Defined.

(** With a merge that returns equal fields, the arguments queued at mount
    are the applied ones: the resolution of configure starts no
    re-render, and asking for the same user again does nothing. *)
Lemma same_value_starts_no_cycle_witness :
  (adapterState (ConfigureAdapter.run mergeFields [Resolve 0] fieldsMount)
   = CONFIGURED
   ∧ scheduled (ConfigureAdapter.run mergeFields [Resolve 0] fieldsMount)
     = None
   ∧ mergeFields
       (appliedAdapterArgs
          (ConfigureAdapter.run mergeFields [Resolve 0] fieldsMount))
       {| nextAdapterArgs := fooFields; options := additive |}
     = appliedAdapterArgs
         (ConfigureAdapter.run mergeFields [Resolve 0] fieldsMount)
   ∧ ConfigureAdapter.step mergeFields
       (RequestReconfiguration fooFields additive)
       (ConfigureAdapter.run mergeFields [Resolve 0] fieldsMount)
     = ConfigureAdapter.run mergeFields [Resolve 0] fieldsMount)
  ∧ (inflight (ConfigureAdapter.run mergeFields [] fieldsMount) !! 0
     = Some ThenConfigure
     ∧ pendingAdapterArgs (ConfigureAdapter.run mergeFields [] fieldsMount)
       = Some (appliedAdapterArgs
                 (ConfigureAdapter.run mergeFields [] fieldsMount))
     ∧ ConfigureAdapter.step mergeFields (Resolve 0)
         (ConfigureAdapter.run mergeFields [] fieldsMount)
       = setAdapterState CONFIGURED
           (withInflight []
              (ConfigureAdapter.run mergeFields [] fieldsMount))).
Proof.
  split.
  - assert (adapterState
              (ConfigureAdapter.run mergeFields [Resolve 0] fieldsMount)
            = CONFIGURED) as H1 by (vm_compute; reflexivity).
    assert (scheduled
              (ConfigureAdapter.run mergeFields [Resolve 0] fieldsMount)
            = None) as H0 by (vm_compute; reflexivity).
    assert (mergeFields
              (appliedAdapterArgs
                 (ConfigureAdapter.run mergeFields [Resolve 0] fieldsMount))
              {| nextAdapterArgs := fooFields; options := additive |}
            = appliedAdapterArgs
                (ConfigureAdapter.run mergeFields [Resolve 0] fieldsMount))
      as H2 by (vm_compute; reflexivity).
    split; [exact H1 | split; [exact H0 | split; [exact H2|]]].
    exact (proj1 (same_value_starts_no_cycle mergeFields propsFields
                    [Resolve 0]) fooFields additive H1 H0 H2).
  - assert (inflight (ConfigureAdapter.run mergeFields [] fieldsMount) !! 0
            = Some ThenConfigure) as H1 by (vm_compute; reflexivity).
    assert (pendingAdapterArgs
              (ConfigureAdapter.run mergeFields [] fieldsMount)
            = Some (appliedAdapterArgs
                      (ConfigureAdapter.run mergeFields [] fieldsMount)))
      as H2 by (vm_compute; reflexivity).
    split; [exact H1 | split; [exact H2|]].
    exact (proj2 (same_value_starts_no_cycle mergeFields propsFields [])
             0 H1 H2).
Defined.

(** The configure promise of the mount resolves: the adapter is not
    called. *)
Lemma adapter_called_after_renders_only_witness :
  isRender (@Resolve Args string 0) = false
  ∧ calls (step (Resolve 0) (run [] mounted)) = calls (run [] mounted).
Proof.
  split; [reflexivity|].
  exact (proj1 (adapter_called_after_renders_only mergeAdapterArgs
                  (Resolve 0) (run [] mounted) eq_refl)).
Defined.

(** Overwriting hands back the object of the request, so the re-rendering
    that follows the resolution of configure comes to an end. *)
Lemma rerendering_settles_when_overwrite_repeats_witness :
  (∀ args x,
     mergeAdapterArgs (mergeAdapterArgs x (overwriteWith args))
       (overwriteWith args)
     = mergeAdapterArgs x (overwriteWith args))
  ∧ scheduled (step (Resolve 0) (run [] mounted)) = None.
Proof.
  assert (∀ args x,
            mergeAdapterArgs (mergeAdapterArgs x (overwriteWith args))
              (overwriteWith args)
            = mergeAdapterArgs x (overwriteWith args)) as H
    by (intros args x; reflexivity).
  split; [exact H|].
  exact (proj2 (rerendering_settles_when_overwrite_repeats mergeAdapterArgs
                  (Resolve 0) (run [] mounted) H)).
Defined.

End Examples.

End ConfigureAdapterSpec.

(** * Properties of the in-memory adapter *)

Module MemoryAdapterSpec.

Import MemoryAdapter.

(** ** Camel case *)

Ltac by_ascii c :=
  destruct c as [[] [] [] [] [] [] [] []]; vm_compute; try reflexivity;
  try discriminate.

Lemma toUpper_alphaNumeric (c : ascii) :
  isAlphaNumeric c = true → isAlphaNumeric (toUpper c) = true.
Proof. by_ascii c. Qed.

Lemma toLower_alphaNumeric (c : ascii) :
  isAlphaNumeric c = true → isAlphaNumeric (toLower c) = true.
Proof. by_ascii c. Qed.

Lemma toLower_idempotent (c : ascii) : toLower (toLower c) = toLower c.
Proof. by_ascii c. Qed.

Lemma joinWords_alphaNumeric (capitalise : bool) (s : string) :
  allAlphaNumeric (joinWords capitalise s) = true.
Proof.
  revert capitalise. induction s as [|c rest IH]; intros capitalise; [done|].
  simpl. destruct (isAlphaNumeric c) eqn:Hc; [|apply IH].
  simpl. rewrite IH, andb_true_r.
  destruct capitalise; [by apply toUpper_alphaNumeric | done].
Qed.

Lemma joinWords_fixed (s : string) :
  allAlphaNumeric s = true → joinWords false s = s.
Proof.
  induction s as [|c rest IH]; [done|]. simpl.
  intros [Hc Hrest]%andb_true_iff. rewrite Hc. by rewrite IH.
Qed.

Lemma lowerFirst_alphaNumeric (s : string) :
  allAlphaNumeric s = true → allAlphaNumeric (lowerFirst s) = true.
Proof.
  destruct s as [|c rest]; [done|]. simpl.
  intros [Hc Hrest]%andb_true_iff.
  by rewrite toLower_alphaNumeric, Hrest.
Qed.

Lemma lowerFirst_idempotent (s : string) :
  lowerFirst (lowerFirst s) = lowerFirst s.
Proof. destruct s as [|c rest]; [done|]. simpl. by rewrite toLower_idempotent. Qed.

Lemma camelCase_idempotent (s : string) : camelCase (camelCase s) = camelCase s.
Proof.
  unfold camelCase.
  rewrite (joinWords_fixed (lowerFirst _)).
  - apply lowerFirst_idempotent.
  - apply lowerFirst_alphaNumeric, joinWords_alphaNumeric.
Qed.

Lemma normalizeFlagValue_idempotent (v : FlagValue) :
  normalizeFlagValue (normalizeFlagValue v) = normalizeFlagValue v.
Proof. by destruct v. Qed.

Lemma normalizeFlagValue_defined (v : FlagValue) :
  normalizeFlagValue v = v → v ≠ FlagNull ∧ v ≠ FlagUndefined.
Proof. by destruct v. Qed.

(** ** Normalising a flag set *)

Lemma normalizeFlags_canonical (raw : Flags) : isCanonical (normalizeFlags raw).
Proof.
  unfold normalizeFlags.
  apply (map_fold_weak_ind (λ acc _, isCanonical acc)).
  - intros name v. by rewrite lookup_empty.
  - intros k x m acc _ IH name v. rewrite lookup_insert.
    case_decide as Hk; [|by apply IH].
    intros [= <-]. subst name.
    by rewrite camelCase_idempotent, normalizeFlagValue_idempotent.
Qed.

Lemma normalizeFlags_fixed (flags : Flags) :
  isCanonical flags → normalizeFlags flags = flags.
Proof.
  unfold normalizeFlags.
  apply (map_fold_weak_ind (λ acc m, isCanonical m → acc = m)).
  - done.
  - intros k x m acc Hk IH Hc.
    destruct (Hc k x) as [-> ->]; [by rewrite lookup_insert_eq|].
    rewrite IH; [done|].
    intros name v Hname. apply Hc.
    rewrite lookup_insert_ne; [done|]. intros ->. congruence.
Qed.

Lemma normalizeFlags_covers (raw : Flags) (name : string) :
  is_Some (raw !! name) → is_Some (normalizeFlags raw !! camelCase name).
Proof.
  unfold normalizeFlags.
  apply (map_fold_weak_ind
           (λ acc m, is_Some (m !! name) → is_Some (acc !! camelCase name))).
  - by rewrite lookup_empty; intros [? ?].
  - intros k x m acc _ IH. rewrite !lookup_insert.
    repeat case_decide; subst; eauto; try done.
Qed.

(** C8.  Normalising flags is a function (total and deterministic by
    construction) that leaves a canonical flag set as it is, always yields
    a canonical flag set (so normalising twice is normalising once), maps
    the two raw flags of the test-suite to flagA1 and flagB, both false,
    and never yields an empty value: null and undefined are coerced to
    false. *)
Theorem normalizeFlags_idempotent_total (raw : Flags) :
  (isCanonical raw → normalizeFlags raw = raw)
  ∧ normalizeFlags (normalizeFlags raw) = normalizeFlags raw
  ∧ normalizeFlags nonNormalizedUpdatedFlags
    = {[ "flagA1"%string := FlagBool false; "flagB"%string := FlagBool false ]}
  ∧ (∀ name v, normalizeFlags raw !! name = Some v →
               v ≠ FlagNull ∧ v ≠ FlagUndefined).
Proof.
  split; [apply normalizeFlags_fixed|].
  split; [apply normalizeFlags_fixed, normalizeFlags_canonical|].
  split; [by vm_compute|].
  intros name v H.
  by apply normalizeFlagValue_defined, (normalizeFlags_canonical raw name v).
Qed.


Lemma normalizeFlags_idempotent_total_witness :
  isCanonical
    {[ "flagA1"%string := FlagBool false; "flagB"%string := FlagBool false ]}
  ∧ normalizeFlags
      {[ "flagA1"%string := FlagBool false; "flagB"%string := FlagBool false ]}
    = {[ "flagA1"%string := FlagBool false; "flagB"%string := FlagBool false ]}.
Proof.
  assert (isCanonical
            {[ "flagA1"%string := FlagBool false;
               "flagB"%string := FlagBool false ]}) as H.
  { intros name v. rewrite lookup_insert. case_decide as Hn.
    - intros [= <-]. subst name. split; reflexivity.
    - rewrite lookup_singleton. case_decide as Hm; [|discriminate].
      intros [= <-]. subst name. split; reflexivity. }
  split; [exact H|].
  exact (proj1 (normalizeFlags_idempotent_total _) H).
Defined.

(** ** Updating and resetting *)

Lemma updateFlags_configured (raw : Flags) (s : AdapterState) :
  isConfigured s = true →
  updateFlags raw s =
    ({| isReady := isReady s; isConfigured := true;
        flags := normalizeFlags raw ∪ flags s; user := user s |},
     [Invariant true; FlagsStateChange (normalizeFlags raw ∪ flags s)]).
Proof. intros H. unfold updateFlags. by rewrite H. Qed.

Lemma updateAll_snoc (updates : list Flags) (raw : Flags) (s : AdapterState) :
  updateAll (updates ++ [raw]) s =
    ((updateFlags raw (updateAll updates s).1).1,
     (updateAll updates s).2 ++ (updateFlags raw (updateAll updates s).1).2).
Proof.
  unfold updateAll. rewrite foldl_app. simpl.
  by destruct (updateFlags raw _).
Qed.

Lemma updateAll_configured (updates : list Flags) (s : AdapterState) :
  isConfigured s = true → isConfigured (updateAll updates s).1 = true.
Proof.
  intros H. induction updates as [|raw updates IH] using rev_ind; [done|].
  rewrite updateAll_snoc. simpl. by rewrite updateFlags_configured.
Qed.

(** A flag that one of the updates set is retrievable afterwards, under
    its canonical name. *)
Lemma updateAll_retrievable (updates : list Flags) (s : AdapterState)
    (raw : Flags) (name : string) :
  isConfigured s = true → raw ∈ updates → is_Some (raw !! name) →
  is_Some (getFlag (camelCase name) (updateAll updates s).1).
Proof.
  intros Hs. induction updates as [|last updates IH] using rev_ind.
  { by intros ?%elem_of_nil. }
  intros Hin Hname. rewrite updateAll_snoc. simpl.
  rewrite updateFlags_configured by (by apply updateAll_configured).
  unfold getFlag. simpl. rewrite lookup_union.
  apply elem_of_app in Hin as [Hin | Heq%list_elem_of_singleton].
  - destruct (IH Hin Hname) as [v Hv]. unfold getFlag in Hv. rewrite Hv.
    destruct (normalizeFlags last !! camelCase name); by eexists.
  - subst last. destruct (normalizeFlags_covers raw name Hname) as [v ->].
    destruct (flags _ !! camelCase name); by eexists.
Qed.

(** C9.  After configure and any sequence of flag updates, a flag set by
    one of the updates is retrievable; after reset it is not, nor is any
    other flag, and reset sends no signal at all, hence no flags-changed
    notification. *)
Theorem reset_clears_flags_silently (u : string) (updates : list Flags)
    (s : AdapterState) (raw : Flags) (name : string) :
  raw ∈ updates → is_Some (raw !! name) →
  is_Some (getFlag (camelCase name) (configuredThenUpdated u updates s))
  ∧ getFlag (camelCase name) (reset (configuredThenUpdated u updates s)).1
    = None
  ∧ (∀ other, getFlag other (reset (configuredThenUpdated u updates s)).1
              = None)
  ∧ filter (λ x, isFlagsStateChange x = true)
      (reset (configuredThenUpdated u updates s)).2 = [].
Proof.
  intros Hin Hname.
  split; [by apply (updateAll_retrievable updates _ raw name)|].
  repeat split.
Qed.

Lemma reset_clears_flags_silently_witness :
  updatedFlags ∈ [updatedFlags]
  ∧ is_Some (updatedFlags !! "fooFlag"%string)
  ∧ getFlag (camelCase "fooFlag")
      (reset (configuredThenUpdated "foo" [updatedFlags] intialAdapterState)).1
    = None.
Proof.
  assert (updatedFlags ∈ [updatedFlags]) as H1
    by (apply list_elem_of_singleton; reflexivity).
  assert (is_Some (updatedFlags !! "fooFlag"%string)) as H2
    by (exists (FlagBool true); vm_compute; reflexivity).
  split; [exact H1 | split; [exact H2|]].
  exact (proj1 (proj2 (reset_clears_flags_silently "foo" [updatedFlags]
                         intialAdapterState updatedFlags "fooFlag" H1 H2))).
Defined.

(** C10.  Mutating flags on an adapter that is not configured calls the
    assertion mechanism with a failing condition: the call returns (with
    the state as it was), and the only signal sent is that assertion.
    Once configure has resolved, the same mutation calls the assertion
    with a passing condition and notifies the flags-change callback with
    the updated flags. *)
Theorem updateFlags_asserts_configuration (raw : Flags) (s : AdapterState)
    (u : string) :
  (isConfigured s = false → updateFlags raw s = (s, [Invariant false]))
  ∧ (updateFlags raw (configure u s).1).2
    = [Invariant true;
       FlagsStateChange (normalizeFlags raw ∪ flags (configure u s).1)]
  ∧ flags (updateFlags raw (configure u s).1).1
    = normalizeFlags raw ∪ flags (configure u s).1.
Proof.
  split; [|done].
  intros H. unfold updateFlags. by rewrite H.
Qed.

Lemma updateFlags_asserts_configuration_witness :
  isConfigured intialAdapterState = false
  ∧ updateFlags {[ "attempted"%string := FlagVariation "flagUpdate" ]}
      intialAdapterState
    = (intialAdapterState, [Invariant false]).
Proof.
  split; [reflexivity|].
  exact (proj1 (updateFlags_asserts_configuration
                  {[ "attempted"%string := FlagVariation "flagUpdate" ]}
                  intialAdapterState "foo") eq_refl).
Defined.

(** ** The expectations of the adapter test-suite *)

Section TestSuite.

Local Abbreviation configured := (configure "foo" intialAdapterState).1.

Example not_ready_before_configure : getIsReady intialAdapterState = false.
Proof. reflexivity. Qed.

Example updating_flags_before_configure :
  (updateFlags {[ "attempted"%string := FlagVariation "flagUpdate" ]}
     intialAdapterState).2 = [Invariant false].
Proof. reflexivity. Qed.

Example ready_when_configured :
  getIsReady configured = true
  ∧ StatusStateChange true true ∈ (configure "foo" intialAdapterState).2
  ∧ FlagsStateChange ∅ ∈ (configure "foo" intialAdapterState).2.
Proof. split; [reflexivity|]. split; set_solver. Qed.

Example updating_flags_when_configured :
  ∃ published,
    (updateFlags updatedFlags configured).2
    = [Invariant true; FlagsStateChange published]
    ∧ updatedFlags ⊆ published.
Proof.
  eexists. split; [reflexivity|].
  simpl. rewrite (normalizeFlags_fixed updatedFlags).
  - apply map_union_subseteq_l.
  - intros name v. unfold updatedFlags. rewrite lookup_insert.
    case_decide as Hn; [intros [= <-]; by subst name|].
    rewrite lookup_singleton. case_decide as Hm; [|done].
    intros [= <-]. by subst name.
Qed.

Example flags_not_normalized :
  getFlag "flagA1" (updateFlags nonNormalizedUpdatedFlags configured).1
  = Some (FlagBool false)
  ∧ getFlag "flagB" (updateFlags nonNormalizedUpdatedFlags configured).1
    = Some (FlagBool false).
Proof. split; by vm_compute. Qed.

Example reconfiguring :
  getUser (reconfigure "bar" configured).1 = Some "bar"%string
  ∧ (reconfigure "bar" configured).2 = [FlagsStateChange ∅].
Proof. by split. Qed.

Example resetting :
  (reset (updateFlags updatedFlags configured).1).2 = []
  ∧ getFlag "fooFlag" (reset (updateFlags updatedFlags configured).1).1 = None
  ∧ getFlag "barFlag" (reset (updateFlags updatedFlags configured).1).1 = None.
Proof. by repeat split. Qed.

Example setting_ready_state :
  getIsReady (setIsReady false configured).1 = false
  ∧ (setIsReady false configured).2 = [StatusStateChange false true].
Proof. by split. Qed.

End TestSuite.

End MemoryAdapterSpec.
